(** * Dead-code detector of the LTCG monorepo: scripts/check_dead_code.py

    A shallow embedding of [DeadCodeDetector] and [main], and the
    properties of the scan / extract / resolve / classify pipeline.

    Modelling conventions.
    - Text is ASCII: a Python [str] is a [string]; the classes [\s] and [\w]
      of [re] are given on the ASCII range.
    - A [pathlib.Path] is its [parts] tuple: an absolute POSIX path is the
      anchor (one slash, or two) followed by its components; the operations
      are those of CPython 3.11 and 3.12.
    - The file system is a finite tree without symbolic links, so that
      [Path.resolve] is the lexical normalisation of [..].
    - A Python [set] is a [gset]; the order in which a [for] loop visits a
      set is not fixed by the language (string hashes are salted per
      process), so every such loop runs over an order taken from a
      [HashSeed].
    - [print] appends an [Event] to a log; an uncaught exception ends the
      computation with [Raise]. *)

From Stdlib Require Import Ascii String List.
From stdpp Require Import base option list gmap strings sets.

Local Open Scope string_scope.
Local Open Scope list_scope.
Local Set Warnings "-register-all,-clear-no-such-hyp,-level-tolerance".

(* ===================================================================== *)
(** ** Python strings *)
(* ===================================================================== *)

Module Str.

(** [s.startswith(p)] *)
Fixpoint startswith (p s : string) : bool :=
  match p, s with
  | EmptyString, _ => true
  | String a p', String b s' => if Ascii.eqb a b then startswith p' s' else false
  | String _ _, EmptyString => false
  end.

(** [s.endswith(p)] *)
Definition endswith (p s : string) : bool :=
  startswith (String.rev p) (String.rev s).

(** [s[n:]] *)
Fixpoint drop (n : nat) (s : string) : string :=
  match n, s with
  | O, _ => s
  | S n', String _ s' => drop n' s'
  | S _, EmptyString => EmptyString
  end.

(** [s[:n]] *)
Fixpoint take (n : nat) (s : string) : string :=
  match n, s with
  | S n', String a s' => String a (take n' s')
  | _, _ => EmptyString
  end.

(** [c in s] for a one-character [c] *)
Fixpoint contains (c : ascii) (s : string) : bool :=
  match s with
  | EmptyString => false
  | String a s' => if Ascii.eqb a c then true else contains c s'
  end.

(** [s.split('/')] *)
Fixpoint split_go (sep : ascii) (cur : string) (s : string) : list string :=
  match s with
  | EmptyString => [String.rev cur]
  | String a s' =>
      if Ascii.eqb a sep then String.rev cur :: split_go sep EmptyString s'
      else split_go sep (String a cur) s'
  end.
Definition split (sep : ascii) (s : string) : list string :=
  split_go sep EmptyString s.

(** [sep.join(l)] *)
Fixpoint join (sep : string) (l : list string) : string :=
  match l with
  | [] => EmptyString
  | [x] => x
  | x :: l' => x +:+ sep +:+ join sep l'
  end.

(** [s.rfind('.')]: the index of the last dot, if any *)
Fixpoint rfind_go (c : ascii) (i : nat) (last : option nat) (s : string) : option nat :=
  match s with
  | EmptyString => last
  | String a s' => rfind_go c (S i) (if Ascii.eqb a c then Some i else last) s'
  end.
Definition rfind (c : ascii) (s : string) : option nat := rfind_go c 0 None s.

End Str.

(* ===================================================================== *)
(** ** The fragment of [re] used by the detector *)
(* ===================================================================== *)

Module Re.

Definition code (c : ascii) : nat := nat_of_ascii c.

(** [\s] on ASCII: tab, LF, VT, FF, CR, the separators 0x1c-0x1f, space *)
Definition is_space (c : ascii) : bool :=
  let n := code c in
  (Nat.leb 9 n && Nat.leb n 13) || (Nat.leb 28 n && Nat.leb n 32).

(** [\w] on ASCII: letters, digits, underscore *)
Definition is_word (c : ascii) : bool :=
  let n := code c in
  (Nat.leb 48 n && Nat.leb n 57) || (Nat.leb 65 n && Nat.leb n 90)
  || (Nat.leb 97 n && Nat.leb n 122) || Nat.eqb n 95.

(** [.] without DOTALL: anything but a line feed *)
Definition is_dot (c : ascii) : bool := negb (Nat.eqb (code c) 10).

(** the class of the two quote characters, and its complement *)
Definition is_quote (c : ascii) : bool :=
  Nat.eqb (code c) 34 || Nat.eqb (code c) 39.
Definition not_quote (c : ascii) : bool := negb (is_quote c).

(** [^}] *)
Definition not_rbrace (c : ascii) : bool := negb (Nat.eqb (code c) 125).

(** Patterns.  Repetition is only ever applied to a one-character class
    in the detector's tables, which keeps the matcher structural. *)
Inductive regex :=
| Lit (s : string)                  (* literal text *)
| Cls (p : ascii → bool)            (* one character of a class *)
| Star (p : ascii → bool)           (* p*  greedy *)
| Plus (p : ascii → bool)           (* p+  greedy *)
| LazyStar (p : ascii → bool)       (* p*? *)
| Seq (r1 r2 : regex)
| Alt (r1 r2 : regex)
| Opt (r : regex)                   (* (?:r)?  greedy *)
| Group (r : regex).                (* ( r ), capture group 1 *)

(** The state of a match attempt: what is left of the text, and group 1. *)
Definition cont := list ascii → option string → option (list ascii * option string).

Fixpoint lit (s : string) (t : list ascii) : option (list ascii) :=
  match s, t with
  | EmptyString, _ => Some t
  | String a s', b :: t' => if Ascii.eqb a b then lit s' t' else None
  | String _ _, [] => None
  end.

(** greedy: take as many as possible, give back one at a time *)
Fixpoint star (p : ascii → bool) (t : list ascii) (g : option string) (k : cont) :=
  match t with
  | c :: t' =>
      if p c then
        match star p t' g k with
        | Some r => Some r
        | None => k t g
        end
      else k t g
  | [] => k t g
  end.

(** lazy: take as few as possible, one more on failure *)
Fixpoint lazystar (p : ascii → bool) (t : list ascii) (g : option string) (k : cont) :=
  match k t g with
  | Some r => Some r
  | None =>
      match t with
      | c :: t' => if p c then lazystar p t' g k else None
      | [] => None
      end
  end.

Definition consumed (t t' : list ascii) : string :=
  string_of_list_ascii (firstn (length t - length t') t).

(** Backtracking matcher, alternatives tried left to right as [re] does. *)
Fixpoint run (r : regex) (t : list ascii) (g : option string) (k : cont)
  : option (list ascii * option string) :=
  match r with
  | Lit s => match lit s t with Some t' => k t' g | None => None end
  | Cls p => match t with c :: t' => if p c then k t' g else None | [] => None end
  | Star p => star p t g k
  | Plus p => match t with c :: t' => if p c then star p t' g k else None | [] => None end
  | LazyStar p => lazystar p t g k
  | Seq r1 r2 => run r1 t g (λ t' g', run r2 t' g' k)
  | Alt r1 r2 =>
      match run r1 t g k with
      | Some x => Some x
      | None => run r2 t g k
      end
  | Opt r1 =>
      match run r1 t g k with
      | Some x => Some x
      | None => k t g
      end
  | Group r1 => run r1 t g (λ t' _, k t' (Some (consumed t t')))
  end.

(** One attempt anchored at the head of [t]: the rest and group 1. *)
Definition match_here (r : regex) (t : list ascii) : option (list ascii * option string) :=
  run r t None (λ t' g, Some (t', g)).

(** [re.finditer]: leftmost matches, left to right, without overlap.
    [skip] counts the characters of the last match still to be passed.
    Each match is reported by its group 1 ([None] when the pattern has no
    group, which is [match.lastindex is None]). *)
Fixpoint finditer_go (r : regex) (skip : nat) (t : list ascii) {struct t}
  : list (option string) :=
  match skip with
  | S n => match t with _ :: t' => finditer_go r n t' | [] => [] end
  | O =>
      match match_here r t with
      | Some (t', g) =>
          g :: match t with
               | _ :: t1 => finditer_go r (length t - length t' - 1) t1
               | [] => []
               end
      | None => match t with _ :: t1 => finditer_go r 0 t1 | [] => [] end
      end
  end.

Definition finditer (r : regex) (content : string) : list (option string) :=
  finditer_go r 0 (list_ascii_of_string content).

(** [re.findall(r'\w+', s)] *)
Fixpoint findall_words_go (cur : list ascii) (t : list ascii) : list string :=
  let flush := match cur with [] => [] | _ => [string_of_list_ascii (rev cur)] end in
  match t with
  | [] => flush
  | c :: t' => if is_word c then findall_words_go (c :: cur) t'
               else flush ++ findall_words_go [] t'
  end.
Definition findall_words (s : string) : list string :=
  findall_words_go [] (list_ascii_of_string s).

End Re.

(* ===================================================================== *)
(** ** [pathlib] on POSIX *)
(* ===================================================================== *)

(** A path is its [parts] tuple. *)
Abbreviation Path := (list string) (only parsing).

Module Pathlib.

Definition is_anchor (s : string) : bool := String.eqb s "/" || String.eqb s "//".

Definition is_absolute (p : Path) : bool :=
  match p with a :: _ => is_anchor a | [] => false end.

(** [path.parts] *)
Definition parts (p : Path) : list string := p.

(** the components after the anchor *)
Definition tail (p : Path) : list string :=
  if is_absolute p then List.tl p else p.

(** [Path(s)]: the root is [//] for exactly two leading slashes and [/]
    for any other number of them; empty and [.] components are dropped. *)
Definition of_str (s : string) : Path :=
  let comps := List.filter (λ c, negb (String.eqb c "" || String.eqb c "."))
                           (Str.split "/"%char s) in
  if Str.startswith "/" s then
    (if Str.startswith "//" s && negb (Str.startswith "///" s) then "//" else "/")
      :: comps
  else comps.

(** [str(path)] *)
Definition to_str (p : Path) : string :=
  match p with
  | [] => "."
  | a :: rest => if is_anchor a then a +:+ Str.join "/" rest else Str.join "/" p
  end.

(** [base / s] for a string [s]: an absolute [s] replaces [base] *)
Definition joinpath (base : Path) (s : string) : Path :=
  let q := of_str s in
  if is_absolute q then q else base ++ q.

(** [path.name]: the last component, the empty string when there is none *)
Definition name (p : Path) : string := List.last (tail p) "".

(** [path.parent] *)
Definition parent (p : Path) : Path :=
  match tail p with
  | [] => p
  | _ :: _ => List.removelast p
  end.

(** [path.suffix]: from the last dot of the name, unless that dot is the
    first or the last character *)
Definition suffix (p : Path) : string :=
  let n := name p in
  match Str.rfind "."%char n with
  | Some i => if Nat.ltb 0 i && Nat.ltb i (String.length n - 1) then Str.drop i n else ""
  | None => ""
  end.

(** [path.with_suffix(ext)]: the old suffix is REPLACED by [ext];
    [None] stands for [ValueError] (the path has an empty name) *)
Definition with_suffix (p : Path) (ext : string) : option Path :=
  let n := name p in
  if String.eqb n "" then None
  else
    let old := suffix p in
    let n' := if String.eqb old "" then n +:+ ext
              else Str.take (String.length n - String.length old) n +:+ ext in
    Some (List.removelast p ++ [n']).

(** [path.relative_to(root)]: [None] stands for [ValueError] *)
Fixpoint relative_to (p root : Path) : option Path :=
  match root, p with
  | [], _ => Some p
  | r :: root', c :: p' => if String.eqb r c then relative_to p' root' else None
  | _ :: _, [] => None
  end.

(** lexical [..] elimination; [..] at the root stays at the root *)
Fixpoint normalize (acc : list string) (comps : list string) : list string :=
  match comps with
  | [] => List.rev acc
  | c :: comps' =>
      if String.eqb c ".." then normalize (List.tl acc) comps'
      else normalize (c :: acc) comps'
  end.

(** [path.resolve()] in a tree without symbolic links, from the working
    directory [cwd] (an absolute, normalised path); the result is anchored
    at a single slash *)
Definition resolve (cwd : Path) (p : Path) : Path :=
  let full := if is_absolute p then p else cwd ++ p in
  "/" :: normalize [] (tail full).

End Pathlib.

(* ===================================================================== *)
(** ** The file system *)
(* ===================================================================== *)

Module Fs.

(** A file carries its text, or [None] when reading it fails; a directory
    carries its entries by name. *)
Inductive node :=
| File (content : option string)
| Dir (entries : list (string * node)).

Fixpoint assoc (n : string) (es : list (string * node)) : option node :=
  match es with
  | [] => None
  | (m, x) :: es' => if String.eqb n m then Some x else assoc n es'
  end.

(** the node at the components [comps] below [fs] *)
Fixpoint lookup (fs : node) (comps : list string) : option node :=
  match comps with
  | [] => Some fs
  | c :: comps' =>
      match fs with
      | Dir es => match assoc c es with
                  | Some sub => lookup sub comps'
                  | None => None
                  end
      | File _ => None
      end
  end.

(** the node at an absolute, normalised path; [fs] is the directory [/] *)
Definition at_path (fs : node) (p : Path) : option node :=
  if Pathlib.is_absolute p then lookup fs (Pathlib.tail p) else None.

(** [path.exists()] *)
Definition exists_ (fs : node) (p : Path) : bool :=
  match at_path fs p with Some _ => true | None => false end.

(** [path.is_file()] *)
Definition is_file (fs : node) (p : Path) : bool :=
  match at_path fs p with Some (File _) => true | _ => false end.

(** [path.is_dir()] *)
Definition is_dir (fs : node) (p : Path) : bool :=
  match at_path fs p with Some (Dir _) => true | _ => false end.

(** [path.read_text(encoding='utf-8', errors='ignore')]: [None] stands
    for the exception raised when the file cannot be read *)
Definition read_text (fs : node) (p : Path) : option string :=
  match at_path fs p with
  | Some (File (Some content)) => Some content
  | _ => None
  end.

End Fs.

(* ===================================================================== *)
(** ** Output and exceptions *)
(* ===================================================================== *)

(** The value returned by [generate_report]: the four counts and, for each
    of the three result sets, its files grouped by category. *)
Record Summary := {
  total_files : nat;
  unused_files : nat;
  orphaned_files : nat;
  files_with_no_exports : nat;
}.

Record Report := {
  summary : Summary;
  report_unused_files : gmap string (list Path);
  report_orphaned_files : gmap string (list Path);
  report_files_with_no_exports : gmap string (list Path);
}.

(** What the script prints, line by line. *)
Inductive Event :=
| PrintScanning (root : Path)             (* Scanning {root_dir}... *)
| PrintFound (n : nat)                    (* Found {n} files to analyze *)
| PrintBuilding                           (* Building dependency graph... *)
| PrintWarning (file : Path)              (* Warning: Could not parse {file}: ... *)
| PrintError (root : Path)                (* Error: Directory {root} does not exist *)
| PrintReport (json detailed : bool) (report : Report).   (* the report *)

(** The exceptions that escape the detector. *)
Inductive Exn :=
| ValueError (msg : string).

Inductive outcome (A : Type) :=
| Ok (a : A)
| Raise (e : Exn).
Arguments Ok {A} a.
Arguments Raise {A} e.

(** A computation that prints and may raise. *)
Definition M (A : Type) : Type := list Event * outcome A.

Definition print (ev : Event) : M unit := ([ev], Ok tt).

#[export] Instance M_ret : MRet M := λ A a, ([], Ok a).

#[export] Instance M_bind : MBind M := λ A B (f : A → M B) (m : M A),
  match m with
  | (l1, Ok a) => let '(l2, r) := f a in (l1 ++ l2, r)
  | (l1, Raise e) => (l1, Raise e)
  end.

(** [for x in xs: st = body(st, x)] *)
Fixpoint for_each {A S} (xs : list A) (body : S → A → M S) (st : S) : M S :=
  match xs with
  | [] => mret st
  | x :: xs' => st' ← body st x; for_each xs' body st'
  end.

(** The order in which this process iterates over its sets. *)
Record HashSeed := {
  ext_order : list string;                 (* over [include_extensions] *)
  path_order : gset Path → list Path;      (* over a set of paths *)
  str_order : gset string → list string;   (* over a set of strings *)
}.

(** What a run of the script sees: the disk, the working directory and the
    iteration orders of this process. *)
Record Env := {
  fs : Fs.node;
  cwd : Path;
  seed : HashSeed;
}.

(* ===================================================================== *)
(** ** [DeadCodeDetector] *)
(* ===================================================================== *)

Module DeadCodeDetector.

Import Re.

(** *** The tables of [__init__] *)

Definition ws_plus := Plus is_space.
Definition ws_star := Star is_space.
Definition quoted_spec : regex :=
  Seq (Cls is_quote) (Seq (Group (Plus not_quote)) (Cls is_quote)).

Definition import_patterns : list regex :=
  [ (* import\s+.*?\s+from\s+Q([^Q]+)Q   with Q the class of both quotes *)
    Seq (Lit "import") (Seq ws_plus (Seq (LazyStar is_dot) (Seq ws_plus
      (Seq (Lit "from") (Seq ws_plus quoted_spec)))));
    (* import\s*\(Q([^Q]+)Q\) *)
    Seq (Lit "import") (Seq ws_star (Seq (Lit "(") (Seq quoted_spec (Lit ")"))));
    (* require\s*\(Q([^Q]+)Q\) *)
    Seq (Lit "require") (Seq ws_star (Seq (Lit "(") (Seq quoted_spec (Lit ")"))));
    (* from\s+Q([^Q]+)Q *)
    Seq (Lit "from") (Seq ws_plus quoted_spec) ].

Definition export_patterns : list regex :=
  [ (* export\s+(?:default\s+)?(?:async\s+)?
       (?:function|class|const|let|var|interface|type|enum)\s+(\w+) *)
    Seq (Lit "export") (Seq ws_plus
      (Seq (Opt (Seq (Lit "default") ws_plus))
      (Seq (Opt (Seq (Lit "async") ws_plus))
      (Seq (Alt (Lit "function") (Alt (Lit "class") (Alt (Lit "const")
             (Alt (Lit "let") (Alt (Lit "var") (Alt (Lit "interface")
             (Alt (Lit "type") (Lit "enum"))))))))
      (Seq ws_plus (Group (Plus is_word)))))));
    (* export\s*\{([^}]+)\} *)
    Seq (Lit "export") (Seq ws_star (Seq (Lit "{")
      (Seq (Group (Plus not_rbrace)) (Lit "}"))));
    (* export\s+default *)
    Seq (Lit "export") (Seq ws_plus (Lit "default")) ].

Definition exclude_dirs : list string :=
  [ "node_modules"; ".next"; "dist"; "build"; ".turbo";
    ".git"; ".vercel"; "output"; ".husky"; ".claude";
    "__pycache__"; ".pytest_cache"; "coverage";
    "playwright-report"; ".playwright-mcp" ].

Definition include_extensions : list string :=
  [ ".ts"; ".tsx"; ".js"; ".jsx"; ".mjs"; ".cjs" ].

Definition entry_patterns : list string :=
  [ "page.tsx"; "layout.tsx"; "route.ts"; "middleware.ts";
    "app.tsx"; "app.ts"; "_app.tsx"; "_document.tsx";
    "index.ts"; "index.tsx"; "index.js"; "index.jsx";
    "main.ts"; "main.tsx"; "main.js"; "main.jsx";
    "server.ts"; "server.js" ].

Definition config_files : list string :=
  [ "next.config.js"; "next.config.mjs"; "next.config.ts";
    "tailwind.config.js"; "tailwind.config.ts";
    "postcss.config.js"; "postcss.config.mjs";
    "vitest.config.ts"; "vite.config.ts";
    "playwright.config.ts";
    "turbo.json"; "tsconfig.json"; "package.json";
    "biome.json"; "convex.json" ].

(** [x in s] for a set of strings given by its elements *)
Definition mem (x : string) (s : list string) : bool :=
  existsb (String.eqb x) s.

(** *** The instance state *)

Record Detector := {
  root_dir : Path;
  files : gset Path;
  imports : gmap Path (gset string);
  exports : gmap Path (gset string);
  file_imports : gmap Path (gset Path);
}.

(** [DeadCodeDetector(root_dir)] *)
Definition init (root : Path) : Detector :=
  {| root_dir := root; files := ∅; imports := ∅; exports := ∅; file_imports := ∅ |}.

(** reading a [defaultdict(set)]: a missing key reads as the empty set *)
Definition get {K} `{Countable K} {V} `{Countable V}
    (d : gmap K (gset V)) (k : K) : gset V :=
  default ∅ (d !! k).

Definition is_excluded_dir (path : Path) : bool :=
  existsb (λ exclude, mem exclude (Pathlib.parts path)) exclude_dirs.

Definition is_entry_point (file_path : Path) : bool :=
  let name := Pathlib.name file_path in
  mem name entry_patterns
  || mem name config_files
  || Str.endswith ".spec.ts" name
  || Str.endswith ".test.ts" name
  || Str.endswith ".spec.tsx" name
  || Str.endswith ".test.tsx" name
  || Str.endswith ".spec.js" name
  || Str.endswith ".test.js" name
  || mem "convex" (Pathlib.parts file_path).

(** *** [scan_files] *)

(** the files of one directory that have an included extension *)
Definition included_here (root_path : Path) (e : string * Fs.node) : list Path :=
  match e with
  | (file, Fs.File _) =>
      let file_path := Pathlib.joinpath root_path file in
      if mem (Pathlib.suffix file_path) include_extensions then [file_path] else []
  | (_, Fs.Dir _) => []
  end.

(** [os.walk], top down, with the pruning of [dirs] done by the loop
    body: an excluded directory is never entered; a directory whose own
    path has an excluded part contributes no file. *)
Fixpoint walk (root_path : Path) (n : Fs.node) {struct n} : list Path :=
  match n with
  | Fs.File _ => []
  | Fs.Dir es =>
      (if is_excluded_dir root_path then [] else flat_map (included_here root_path) es)
      ++ (fix descend (es : list (string * Fs.node)) : list Path :=
            match es with
            | [] => []
            | (d, sub) :: es' =>
                (if mem d exclude_dirs then []
                 else walk (Pathlib.joinpath root_path d) sub)
                ++ descend es'
            end) es
  end.

Definition set_files (st : Detector) (fls : gset Path) : Detector :=
  {| root_dir := root_dir st; files := fls; imports := imports st;
     exports := exports st; file_imports := file_imports st |}.

Definition scan_files (env : Env) (st : Detector) : M Detector :=
  print (PrintScanning (root_dir st)) ;;
  let found := match Fs.at_path (fs env) (root_dir st) with
               | Some n => walk (root_dir st) n
               | None => []
               end in
  let st' := set_files st (files st ∪ list_to_set found) in
  print (PrintFound (size (files st'))) ;;
  mret st'.

(** *** [parse_imports], [parse_exports] *)

Definition parse_imports (env : Env) (file_path : Path) : M (gset string) :=
  match Fs.read_text (fs env) file_path with
  | Some content =>
      mret (list_to_set
             (flat_map (λ pattern, omap id (finditer pattern content)) import_patterns))
  | None =>
      print (PrintWarning file_path) ;; mret ∅
  end.

(** what one match of an export pattern adds to [exports] *)
Definition export_names (m : option string) : list string :=
  match m with
  | Some export_name =>
      if Str.contains "{"%char export_name then findall_words export_name
      else [export_name]
  | None => ["default"]
  end.

Definition parse_exports (env : Env) (file_path : Path) : M (gset string) :=
  match Fs.read_text (fs env) file_path with
  | Some content =>
      mret (list_to_set
             (flat_map (λ pattern, flat_map export_names (finditer pattern content))
                       export_patterns))
  | None =>
      print (PrintWarning file_path) ;; mret ∅
  end.

(** *** [resolve_import_path] *)

(** [parts.index(x)]: [None] stands for [ValueError] *)
Fixpoint index (x : string) (l : list string) : option nat :=
  match l with
  | [] => None
  | y :: l' => if String.eqb y x then Some 0 else S <$> index x l'
  end.

(** the base directory of an [@/] import *)
Definition alias_base (env : Env) (root : Path) (from_file : Path) : outcome Path :=
  match Pathlib.relative_to from_file root with
  | None => Raise (ValueError "from_file is not in the subpath of root_dir")
  | Some rel =>
      let relative_path := Pathlib.to_str rel in
      let chosen : outcome Path :=
        if Str.startswith "apps/web" relative_path then
          Ok (Pathlib.joinpath (Pathlib.joinpath (Pathlib.joinpath root "apps") "web") "src")
        else if Str.startswith "apps/admin" relative_path then
          Ok (Pathlib.joinpath (Pathlib.joinpath (Pathlib.joinpath root "apps") "admin") "src")
        else if Str.startswith "packages" relative_path then
          let parts := Pathlib.parts from_file in
          match index "packages" parts with
          | None => Raise (ValueError "tuple.index(x): x not in tuple")
          | Some pkg_idx =>
              if Nat.ltb (pkg_idx + 1) (length parts) then
                let pkg_root := firstn (pkg_idx + 2) parts in
                Ok (Pathlib.joinpath pkg_root "src")
              else Ok (Pathlib.parent from_file)
          end
        else Ok (Pathlib.joinpath root "src") in
      match chosen with
      | Ok base => Ok (if negb (Fs.exists_ (fs env) base) then Pathlib.parent from_file
                       else base)
      | Raise e => Raise e
      end
  end.

(** [for ext in include_extensions: candidate.with_suffix(ext) ...] *)
Fixpoint try_suffixes (env : Env) (candidate : Path) (exts : list string)
  : outcome (option Path) :=
  match exts with
  | [] => Ok None
  | ext :: exts' =>
      match Pathlib.with_suffix candidate ext with
      | None => Raise (ValueError "candidate has an empty name")
      | Some candidate_with_ext =>
          if Fs.exists_ (fs env) candidate_with_ext then Ok (Some candidate_with_ext)
          else try_suffixes env candidate exts'
      end
  end.

(** [for ext in include_extensions: candidate / f'index{ext}' ...] *)
Fixpoint try_index (env : Env) (candidate : Path) (exts : list string) : option Path :=
  match exts with
  | [] => None
  | ext :: exts' =>
      let index_file := Pathlib.joinpath candidate ("index" +:+ ext) in
      if Fs.exists_ (fs env) index_file then Some index_file
      else try_index env candidate exts'
  end.

(** the end of [resolve_import_path], from [# Try different extensions]
    on: the candidates, in the order the function tries them *)
Definition try_candidates (env : Env) (candidate : Path) : outcome (option Path) :=
  if Fs.exists_ (fs env) candidate && Fs.is_file (fs env) candidate
  then Ok (Some candidate)
  else
    match try_suffixes env candidate (ext_order (seed env)) with
    | Raise e => Raise e
    | Ok (Some found) => Ok (Some found)
    | Ok None =>
        if Fs.is_dir (fs env) candidate
        then Ok (try_index env candidate (ext_order (seed env)))
        else Ok None
    end.

Definition resolve_import_path (env : Env) (root : Path) (from_file : Path)
    (import_str : string) : outcome (option Path) :=
  if negb (Str.startswith "." import_str) && negb (Str.startswith "/" import_str)
     && negb (Str.startswith "@/" import_str)
  then Ok None
  else
    let based : outcome (Path * string) :=
      if Str.startswith "@/" import_str then
        match alias_base env root from_file with
        | Ok base => Ok (base, Str.drop 2 import_str)
        | Raise e => Raise e
        end
      else Ok (Pathlib.parent from_file, import_str) in
    match based with
    | Raise e => Raise e
    | Ok (base, import_str) =>
        try_candidates env
          (Pathlib.resolve (cwd env) (Pathlib.joinpath base import_str))
    end.

(** *** [build_dependency_graph] *)

Definition lift {A} (r : outcome A) : M A := ([], r).

Definition set_parsed (st : Detector) (file_path : Path) (imps exps : gset string)
  : Detector :=
  {| root_dir := root_dir st; files := files st;
     imports := <[file_path := imps]> (imports st);
     exports := <[file_path := exps]> (exports st);
     file_imports := file_imports st |}.

(** [self.file_imports[file_path].add(resolved)] *)
Definition add_edge (st : Detector) (file_path resolved : Path) : Detector :=
  {| root_dir := root_dir st; files := files st;
     imports := imports st; exports := exports st;
     file_imports :=
       <[file_path := get (file_imports st) file_path ∪ {[resolved]}]> (file_imports st) |}.

(** the body of the inner loop *)
Definition resolve_one (env : Env) (file_path : Path) (st : Detector)
    (import_str : string) : M Detector :=
  resolved ← lift (resolve_import_path env (root_dir st) file_path import_str);
  match resolved with
  | Some r => if decide (r ∈ files st) then mret (add_edge st file_path r) else mret st
  | None => mret st
  end.

(** the body of the outer loop *)
Definition process_file (env : Env) (st : Detector) (file_path : Path) : M Detector :=
  imps ← parse_imports env file_path;
  exps ← parse_exports env file_path;
  for_each (str_order (seed env) imps) (resolve_one env file_path)
           (set_parsed st file_path imps exps).

Definition build_dependency_graph (env : Env) (st : Detector) : M Detector :=
  print PrintBuilding ;;
  for_each (path_order (seed env) (files st)) (process_file env) st.

(** *** The classifier *)

(** the union of all the values of [file_imports] *)
Definition imported_files (st : Detector) : gset Path :=
  ⋃ (map_to_list (file_imports st)).*2.

Definition find_unused_files (st : Detector) : gset Path :=
  filter (λ file_path, (file_path ∉ imported_files st)
                       ∧ is_entry_point file_path = false) (files st).

Definition find_orphaned_files (st : Detector) : gset Path :=
  filter (λ file_path, get (imports st) file_path = ∅
                       ∧ get (exports st) file_path = ∅
                       ∧ is_entry_point file_path = false) (files st).

Definition find_files_with_no_exports (st : Detector) : gset Path :=
  filter (λ file_path, get (imports st) file_path ≠ ∅
                       ∧ get (exports st) file_path = ∅
                       ∧ is_entry_point file_path = false) (files st).

(** *** [generate_report] *)

Definition get_relative_path (st : Detector) (file_path : Path) : string :=
  match Pathlib.relative_to file_path (root_dir st) with
  | Some rel => Pathlib.to_str rel
  | None => Pathlib.to_str file_path
  end.

Definition category_of (rel_path : string) : string :=
  if Str.startswith "apps/web" rel_path then "Web App"
  else if Str.startswith "apps/admin" rel_path then "Admin App"
  else if Str.startswith "convex" rel_path then "Convex Backend"
  else if Str.startswith "packages" rel_path then "Packages"
  else if Str.startswith "scripts" rel_path then "Scripts"
  else if Str.startswith "e2e" rel_path || Str.startswith "tests" rel_path then "Tests"
  else "Other".

Definition categorize_files (env : Env) (st : Detector) (fls : gset Path)
  : gmap string (list Path) :=
  foldl (λ (categories : gmap string (list Path)) file,
           let cat := category_of (get_relative_path st file) in
           <[cat := default [] (categories !! cat) ++ [file]]> categories)
        ∅ (path_order (seed env) fls).

Definition generate_report (env : Env) (st : Detector) : Report :=
  let unused := find_unused_files st in
  let orphaned := find_orphaned_files st in
  let no_exports := find_files_with_no_exports st in
  {| summary := {| total_files := size (files st);
                   unused_files := size unused;
                   orphaned_files := size orphaned;
                   files_with_no_exports := size no_exports |};
     report_unused_files := categorize_files env st unused;
     report_orphaned_files := categorize_files env st orphaned;
     report_files_with_no_exports := categorize_files env st no_exports |}.

End DeadCodeDetector.

(* ===================================================================== *)
(** ** [main] *)
(* ===================================================================== *)

Import DeadCodeDetector.

(** the parsed command line *)
Record Args := {
  detailed : bool;
  json : bool;
  root : string;
}.

(** everything [main] does between creating the detector and printing *)
Definition analyse (env : Env) (root_dir : Path) : M Detector :=
  detector ← scan_files env (init root_dir);
  build_dependency_graph env detector.

Definition main (env : Env) (args : Args) : M Z :=
  let root_dir := Pathlib.resolve (cwd env) (Pathlib.of_str (root args)) in
  if negb (Fs.exists_ (fs env) root_dir) then
    print (PrintError root_dir) ;;
    mret 1%Z
  else
    detector ← analyse env root_dir;
    let report := generate_report env detector in
    print (PrintReport (json args) (detailed args) report) ;;
    if Nat.ltb 0 (unused_files (summary report))
       || Nat.ltb 0 (orphaned_files (summary report))
    then mret 1%Z
    else mret 0%Z.

(** [exit(main())]: the status of the process; an uncaught exception makes
    the interpreter print a traceback and exit with status 1. *)
Definition exit_status (run : M Z) : Z :=
  match run with
  | (_, Ok code) => code
  | (_, Raise _) => 1%Z
  end.

(* ===================================================================== *)
(** ** Specification-side definitions *)
(* ===================================================================== *)

(** The value a computation returned, when it did not raise. *)
Definition returned {A} (m : M A) : option A :=
  match m with
  | (_, Ok a) => Some a
  | (_, Raise _) => None
  end.

(** The specifiers and the export names the extractor finds in one file;
    both are empty for a file that cannot be read. *)
Definition imports_of (env : Env) (file_path : Path) : gset string :=
  default ∅ (returned (parse_imports env file_path)).

Definition exports_of (env : Env) (file_path : Path) : gset string :=
  default ∅ (returned (parse_exports env file_path)).

(** The set the scanner finds below [root]. *)
Definition scanned_files (env : Env) (root : Path) : gset Path :=
  match Fs.at_path (fs env) root with
  | Some n => list_to_set (walk root n)
  | None => ∅
  end.

(** [from_file] imports [to_file]: an edge of the dependency graph. *)
Definition edge (st : Detector) (from_file to_file : Path) : Prop :=
  to_file ∈ get (file_imports st) from_file.

(** What Python guarantees about the iteration over a set: every element
    exactly once, in some order. *)
Record seed_ok (sd : HashSeed) : Prop := {
  ext_order_ok : ext_order sd ≡ₚ include_extensions;
  path_order_ok : ∀ s, path_order sd s ≡ₚ elements s;
  str_order_ok : ∀ s, str_order sd s ≡ₚ elements s;
}.

(** The iteration orders of a process that visits the extensions in the
    order [exts] and every other set in the order of [elements]. *)
Definition seed_of (exts : list string) : HashSeed :=
  {| ext_order := exts; path_order := elements; str_order := elements |}.

(** What holds of the detector all along [build_dependency_graph]. *)
Record graph_inv (env : Env) (root : Path) (fls : gset Path) (st : Detector) : Prop := {
  inv_root : root_dir st = root;
  inv_files : files st = fls;
  inv_imports : ∀ f s, imports st !! f = Some s → s = imports_of env f;
  inv_exports : ∀ f s, exports st !! f = Some s → s = exports_of env f;
  inv_edges : ∀ f r, edge st f r →
      f ∈ fls ∧ r ∈ fls ∧ is_Some (imports st !! f)
      ∧ ∃ import_str, import_str ∈ imports_of env f
                      ∧ resolve_import_path env root f import_str = Ok (Some r);
}.

(** The file [f] has been through the outer loop: its specifiers and
    exports are recorded, and every specifier of it that resolves to a
    scanned file has its edge. *)
Definition processed (env : Env) (root : Path) (fls : gset Path) (st : Detector)
    (f : Path) : Prop :=
  imports st !! f = Some (imports_of env f)
  ∧ exports st !! f = Some (exports_of env f)
  ∧ ∀ import_str r, import_str ∈ imports_of env f →
      resolve_import_path env root f import_str = Ok (Some r) →
      r ∈ fls → edge st f r.

(* ===================================================================== *)
(** ** Sample repositories *)
(* ===================================================================== *)

Module Samples.

Definition repo : Path := ["/"; "repo"].

(** a process that visits the extensions in the order they are written *)
Definition ts_first : HashSeed := seed_of include_extensions.

(** a process that comes to [.tsx] before [.ts] *)
Definition tsx_first : HashSeed :=
  seed_of [".tsx"; ".ts"; ".js"; ".jsx"; ".mjs"; ".cjs"].

(** a process that visits files and specifiers in the opposite order *)
Definition backwards : HashSeed :=
  {| ext_order := include_extensions;
     path_order := λ s, reverse (elements s);
     str_order := λ s, reverse (elements s) |}.

(** a checkout at [/repo] holding [entries], run from inside it *)
Definition checkout (entries : list (string * Fs.node)) (sd : HashSeed) : Env :=
  {| fs := Fs.Dir [("repo", Fs.Dir entries)]; cwd := repo; seed := sd |}.

Definition text (s : string) : Fs.node := Fs.File (Some s).

(** the command line without options *)
Definition no_args : Args := {| detailed := false; json := false; root := "." |}.

Definition a_ts : Path := repo ++ ["a.ts"].
Definition b_ts : Path := repo ++ ["b.ts"].
Definition c_ts : Path := repo ++ ["c.ts"].

(** what a computation ended with, for a computation that returned *)
Definition final (m : M Detector) : Detector :=
  default (init []) (returned m).

(** two files that import each other *)
Definition cycle : Env :=
  checkout [ ("a.ts", text "import { b } from './b'; export const a = 1;");
             ("b.ts", text "import { a } from './a'; export const b = 2;") ]
           ts_first.

(** [a.ts] imports [./b], [b.ts] exports [x], [c.ts] is empty *)
Definition three_files : Env :=
  checkout [ ("a.ts", text "import { x } from './b';");
             ("b.ts", text "export const x = 1;");
             ("c.ts", text "") ]
           ts_first.

(** the same three files, visited backwards *)
Definition three_files_backwards : Env :=
  {| fs := fs three_files; cwd := repo; seed := backwards |}.

(** a module run for its effect only, loaded by [a.ts] *)
Definition side_effect : Env :=
  checkout [ ("a.ts", text "const c = require('./c'); export const a = 1;");
             ("c.ts", text "console.log('loaded');") ]
           ts_first.

(** an entry point without imports and exports *)
Definition page_tsx : Path := repo ++ ["page.tsx"].
Definition lone_page : Env := checkout [ ("page.tsx", text "") ] ts_first.

(** a file that cannot be read *)
Definition d_ts : Path := repo ++ ["d.ts"].
Definition unreadable : Env :=
  checkout [ ("d.ts", Fs.File None); ("page.tsx", Fs.File None) ] ts_first.

(** a module whose name has a dot, imported by that name *)
Definition dotted (sd : HashSeed) : Env :=
  checkout [ ("a.ts", text "import { p } from './name.part';");
             ("name.part.ts", text "export const p = 1;") ]
           sd.
Definition name_part_ts : Path := repo ++ ["name.part.ts"].

(** the same, next to a module called [name.ts] *)
Definition dotted_shadowed (sd : HashSeed) : Env :=
  checkout [ ("a.ts", text "import { p } from './name.part';");
             ("name.part.ts", text "export const p = 1;");
             ("name.ts", text "export const q = 2;") ]
           sd.
Definition name_ts : Path := repo ++ ["name.ts"].

(** one specifier, two files that differ by their extension *)
Definition two_extensions (sd : HashSeed) : Env :=
  checkout [ ("a.ts", text "import { foo } from './foo';");
             ("foo.ts", text "export const foo = 1;");
             ("foo.tsx", text "export const foo = 2;") ]
           sd.
Definition foo_ts : Path := repo ++ ["foo.ts"].
Definition foo_tsx : Path := repo ++ ["foo.tsx"].

(** an alias import from a directory whose name only starts with
    [packages] *)
Definition packages_old : Env :=
  checkout [ ("packages-old",
              Fs.Dir [ ("a.ts", text "import { x } from '@/x';") ]) ]
           ts_first.
Definition packages_old_a_ts : Path := repo ++ ["packages-old"; "a.ts"].

(** a relative import that climbs to the root of the file system *)
Definition climbs_to_root : Env :=
  checkout [ ("a.ts", text "import { x } from '../..';") ] ts_first.

(** an application and a package that use the [@/] alias, and a directory
    imported through its index file *)
Definition monorepo : Env :=
  checkout
    [ ("apps", Fs.Dir [ ("web", Fs.Dir [ ("src", Fs.Dir
        [ ("index.ts", text "import { h } from '@/utils/helpers';");
          ("utils", Fs.Dir [ ("helpers.ts", text "export const h = 1;") ]) ]) ]) ]);
      ("packages", Fs.Dir [ ("ui", Fs.Dir [ ("src", Fs.Dir
        [ ("a.ts", text "import { b } from '@/b'; import s from './sub';");
          ("b.tsx", text "export const b = 1;");
          ("sub", Fs.Dir [ ("index.js", text "module.exports = 1;") ]) ]) ]) ]) ]
    ts_first.
Definition web_src : Path := repo ++ ["apps"; "web"; "src"].
Definition ui_src : Path := repo ++ ["packages"; "ui"; "src"].

(** a checkout at [/repo], asked to scan [/repo/gone] *)
Definition gone_args : Args := {| detailed := false; json := false; root := "gone" |}.
Definition gone : Path := repo ++ ["gone"].

End Samples.

(* ===================================================================== *)
(** ** Well-formed disks *)
(* ===================================================================== *)

(** A name a directory can hold: not empty, not a dot entry, no slash. *)
Definition wf_name (n : string) : bool :=
  negb (String.eqb n "") && negb (String.eqb n ".") && negb (String.eqb n "..")
  && negb (Str.contains "/"%char n).

(** A tree whose directories hold each name once, all names well formed. *)
Fixpoint wf_node (n : Fs.node) : bool :=
  match n with
  | Fs.File _ => true
  | Fs.Dir es =>
      bool_decide (NoDup es.*1) && forallb wf_name es.*1
      && (fix all (es : list (string * Fs.node)) : bool :=
            match es with
            | [] => true
            | (_, sub) :: es' => wf_node sub && all es'
            end) es
  end.

(** There is a regular file at the components [rel] below [n]. *)
Definition file_below (n : Fs.node) (rel : list string) : Prop :=
  ∃ content, Fs.lookup n rel = Some (Fs.File content).

(* ===================================================================== *)
(** ** Undecodable bytes *)
(* ===================================================================== *)

(** A byte that no UTF-8 text contains: 0xC0, 0xC1, 0xF5 to 0xFF. *)
Definition never_utf8 (b : ascii) : bool :=
  let n := Re.code b in
  Nat.eqb n 192 || Nat.eqb n 193 || Nat.leb 245 n.

(** [bytes.decode('utf-8')] fails on [bs]: some byte of it is never part of
    a UTF-8 text. *)
Definition undecodable (bs : list ascii) : bool := existsb never_utf8 bs.

(** [bytes.decode('utf-8', errors='ignore')] on bytes that are ASCII or
    never part of a UTF-8 text: each byte of the second kind is an invalid
    start byte, an error of its own, and is dropped. *)
Definition decode_ignore (bs : list ascii) : string :=
  string_of_list_ascii (List.filter (λ b, negb (never_utf8 b)) bs).

(** A file that holds the bytes [bs], as
    [read_text(encoding='utf-8', errors='ignore')] reads it. *)
Definition stored (bs : list ascii) : Fs.node := Fs.File (Some (decode_ignore bs)).

(* ===================================================================== *)
(** ** More sample repositories *)
(* ===================================================================== *)

Module Cases.

Import Samples.

(** a checkout with a dependency cache, a build output and a text file *)
Definition with_excluded : Env :=
  checkout
    [ ("src", Fs.Dir [ ("a.ts", text "export const a = 1;");
                       ("notes.txt", text "not a source file");
                       ("dist", Fs.Dir [ ("a.js", text "exports.a = 1;") ]) ]);
      ("node_modules", Fs.Dir [ ("pkg", Fs.Dir [ ("index.js", text "") ]) ]) ]
    ts_first.
Definition src_a_ts : Path := repo ++ ["src"; "a.ts"].

(** what [scan_files] returns on a fresh detector *)
Definition scanned (env : Env) (root : Path) : Detector :=
  final (scan_files env (init root)).

(** a checkout kept below a directory called [build] *)
Definition build_repo : Path := ["/"; "home"; "build"; "repo"].
Definition under_build : Env :=
  {| fs := Fs.Dir [ ("home", Fs.Dir [ ("build", Fs.Dir [ ("repo", Fs.Dir
              [ ("a.ts", text "import { b } from './b';");
                ("b.ts", text "") ]) ]) ]) ];
     cwd := build_repo; seed := ts_first |}.

(** a checkout kept below a directory called [convex] *)
Definition convex_repo : Path := ["/"; "home"; "convex"; "repo"].
Definition under_convex : Env :=
  {| fs := Fs.Dir [ ("home", Fs.Dir [ ("convex", Fs.Dir [ ("repo", Fs.Dir
              [ ("a.ts", text "import { b } from './b';");
                ("b.ts", text "") ]) ]) ]) ];
     cwd := convex_repo; seed := ts_first |}.

(** an import line followed by two bytes that are not UTF-8 *)
Definition lossy_bytes : list ascii :=
  list_ascii_of_string "import { b } from './b';"
  ++ [ascii_of_nat 255; ascii_of_nat 254].

(** a checkout whose a.ts holds those bytes *)
Definition lossy : Env :=
  checkout [ ("a.ts", stored lossy_bytes);
             ("b.ts", text "export const b = 1;") ]
           ts_first.

End Cases.

(* ===================================================================== *)
(** ** Reading a grouped report *)
(* ===================================================================== *)

(** The category [categorize_files] files a path under. *)
Definition category (st : Detector) (file : Path) : string :=
  category_of (get_relative_path st file).

(** The number of paths listed in a grouped report, all categories
    together. *)
Definition listed (groups : gmap string (list Path)) : nat :=
  map_fold (λ _ (l : list Path) n, length l + n) 0 groups.

(* ===================================================================== *)
(** ** Reading the extractor *)
(* ===================================================================== *)

(** The pattern [r] goes on with the text and leaves group 1 as it was. *)
Definition passes (r : Re.regex) : Prop :=
  ∀ t g k res, Re.run r t g k = Some res → ∃ t', k t' g = Some res.

(** The pattern [r] goes on with group 1 set to a text that meets [Q]. *)
Definition captures (r : Re.regex) (Q : string → Prop) : Prop :=
  ∀ t g k res, Re.run r t g k = Some res → ∃ t' s, Q s ∧ k t' (Some s) = Some res.

(** A specifier as the import patterns capture it: at least one character,
    none of them a quote. *)
Definition unquoted (s : string) : Prop :=
  s ≠ "" ∧ ∀ c, c ∈ list_ascii_of_string s → Re.is_quote c = false.

(** The text [w] occurs in [t]. *)
Fixpoint occurs (w : string) (t : list ascii) : bool :=
  match Re.lit w t with
  | Some _ => true
  | None => match t with
            | [] => false
            | _ :: t' => occurs w t'
            end
  end.

(** The word [w] occurs in the text [content]. *)
Definition mentions (w content : string) : bool :=
  occurs w (list_ascii_of_string content).

(* ===================================================================== *)
(** ** Lemmas on the monad and the loops *)
(* ===================================================================== *)

Section MonadFacts.

Context {A B : Type}.

Lemma bind_Ok (l : list Event) (a : A) (f : A → M B) :
  (l, Ok a) ≫= f = (l ++ (f a).1, (f a).2).
Proof. unfold mbind, M_bind. by destruct (f a). Qed.

Lemma bind_Raise (l : list Event) (e : Exn) (f : A → M B) :
  (l, Raise e) ≫= f = (l, Raise e).
Proof. done. Qed.

Lemma bind_inv_Ok (m : M A) (f : A → M B) (log : list Event) (b : B) :
  m ≫= f = (log, Ok b) →
  ∃ l1 a l2, m = (l1, Ok a) ∧ f a = (l2, Ok b) ∧ log = l1 ++ l2.
Proof.
  destruct m as [l1 [a|e]]; [|done].
  rewrite bind_Ok. destruct (f a) as [l2 r] eqn:Hf; simpl.
  intros [= <- ->]. by exists l1, a, l2.
Qed.

End MonadFacts.

Section LoopFacts.

Context {A S : Type} (body : S → A → M S).

(** A property kept by every completed iteration holds at the end of a
    completed loop. *)
Lemma for_each_invariant (P : S → Prop) (xs : list A) :
  (∀ st x l st', x ∈ xs → P st → body st x = (l, Ok st') → P st') →
  ∀ st log st', P st → for_each xs body st = (log, Ok st') → P st'.
Proof.
  induction xs as [|x xs IH]; intros Hstep st log st' HP; simpl.
  - by intros [= _ <-].
  - intros (l1 & st1 & l2 & Hb & Hrest & _)%bind_inv_Ok.
    eapply IH; [| |exact Hrest].
    + intros ????? ; apply Hstep. by right.
    + eapply Hstep; [by left|exact HP|exact Hb].
Qed.

(** What every iteration over [x] prints is in the log of a completed
    loop that visits [x]. *)
Lemma for_each_log (ev : Event) (x : A) (xs : list A) :
  x ∈ xs → (∀ st, ev ∈ (body st x).1) →
  ∀ st log st', for_each xs body st = (log, Ok st') → ev ∈ log.
Proof.
  intros Hx Hev. induction xs as [|y xs IH]; intros st log st'; simpl.
  - by apply elem_of_nil in Hx.
  - intros (l1 & st1 & l2 & Hb & Hrest & ->)%bind_inv_Ok.
    apply elem_of_app. apply elem_of_cons in Hx as [<-|Hx].
    + left. specialize (Hev st). by rewrite Hb in Hev.
    + right. by eapply IH.
Qed.

End LoopFacts.

(* ===================================================================== *)
(** ** The extractor and the graph builder *)
(* ===================================================================== *)

Section Builder.

Context (env : Env).

(** Neither extractor raises: the [try] catches every read failure. *)
Lemma parse_imports_returns (file_path : Path) :
  ∃ log, parse_imports env file_path = (log, Ok (imports_of env file_path)).
Proof.
  unfold imports_of, parse_imports.
  destruct (Fs.read_text (fs env) file_path); eauto.
Qed.

Lemma parse_exports_returns (file_path : Path) :
  ∃ log, parse_exports env file_path = (log, Ok (exports_of env file_path)).
Proof.
  unfold exports_of, parse_exports.
  destruct (Fs.read_text (fs env) file_path); eauto.
Qed.

Lemma parse_imports_unreadable (file_path : Path) :
  Fs.read_text (fs env) file_path = None →
  parse_imports env file_path = ([PrintWarning file_path], Ok ∅).
Proof. unfold parse_imports. by intros ->. Qed.

Lemma parse_exports_unreadable (file_path : Path) :
  Fs.read_text (fs env) file_path = None →
  parse_exports env file_path = ([PrintWarning file_path], Ok ∅).
Proof. unfold parse_exports. by intros ->. Qed.

Lemma imports_of_unreadable (file_path : Path) :
  Fs.read_text (fs env) file_path = None → imports_of env file_path = ∅.
Proof. intros H. unfold imports_of. by rewrite parse_imports_unreadable. Qed.

Lemma exports_of_unreadable (file_path : Path) :
  Fs.read_text (fs env) file_path = None → exports_of env file_path = ∅.
Proof. intros H. unfold exports_of. by rewrite parse_exports_unreadable. Qed.

Lemma get_insert {K} `{Countable K} {V} `{Countable V}
    (d : gmap K (gset V)) (k k' : K) (v : gset V) :
  get (<[k := v]> d) k' = if decide (k = k') then v else get d k'.
Proof.
  unfold get. rewrite lookup_insert. by case_decide.
Qed.

Lemma edge_add_edge (st : Detector) (f r f' r' : Path) :
  edge (add_edge st f r) f' r' ↔ edge st f' r' ∨ (f' = f ∧ r' = r).
Proof.
  unfold edge, add_edge; simpl. rewrite get_insert.
  case_decide as Heq.
  - subst f'. rewrite elem_of_union, elem_of_singleton. naive_solver.
  - naive_solver.
Qed.

Context (root : Path) (fls : gset Path).

Lemma graph_inv_init :
  graph_inv env root fls (set_files (init root) fls).
Proof.
  split; simpl; try done.
Qed.

(** One pass of the inner loop keeps the invariant, for a specifier that
    the file does contain. *)
Lemma resolve_one_inv (file_path : Path) (st st' : Detector)
    (import_str : string) (l : list Event) :
  file_path ∈ fls →
  import_str ∈ imports_of env file_path →
  is_Some (imports st !! file_path) →
  graph_inv env root fls st →
  resolve_one env file_path st import_str = (l, Ok st') →
  graph_inv env root fls st' ∧ is_Some (imports st' !! file_path).
Proof.
  intros Hfile Himp Hsome Hinv. unfold resolve_one, lift.
  destruct (resolve_import_path env (root_dir st) file_path import_str)
    as [[r|]|e] eqn:Hres; rewrite ?bind_Ok, ?bind_Raise; simpl; [| |done].
  - case_decide as Hin; simpl; intros [= _ <-]; [|done].
    split; [|done]. destruct Hinv as [Hr Hf Hi He Hedges].
    split; simpl; try done.
    intros f r' [Hold | [-> ->]]%edge_add_edge.
    + apply Hedges, Hold.
    + rewrite Hr in Hres. rewrite Hf in Hin. split_and!; eauto.
  - by intros [= _ <-].
Qed.

(** What one pass of the inner loop does to the state: at most one edge
    from [file_path] is added, and it is added when the specifier resolves
    to a scanned file. *)
Lemma resolve_one_effect (file_path : Path) (st st' : Detector)
    (import_str : string) (l : list Event) :
  resolve_one env file_path st import_str = (l, Ok st') →
  root_dir st' = root_dir st ∧ files st' = files st
  ∧ imports st' = imports st ∧ exports st' = exports st
  ∧ (∀ f r, edge st f r → edge st' f r)
  ∧ (∀ r, resolve_import_path env (root_dir st) file_path import_str = Ok (Some r) →
          r ∈ files st → edge st' file_path r).
Proof.
  unfold resolve_one, lift.
  destruct (resolve_import_path env (root_dir st) file_path import_str)
    as [[r|]|e] eqn:Hres; rewrite ?bind_Ok, ?bind_Raise; simpl; [| |done].
  - case_decide as Hin; simpl; intros [= _ <-].
    + split_and!; try done.
      * intros f r' Hold. apply edge_add_edge. by left.
      * intros r' [= <-] _. apply edge_add_edge. by right.
    + split_and!; try done. by intros r' [= <-] ?.
  - intros [= _ <-]. split_and!; done.
Qed.

Lemma inner_loop_effect (file_path : Path) (imps : list string) :
  ∀ (st st' : Detector) (l : list Event),
  for_each imps (resolve_one env file_path) st = (l, Ok st') →
  root_dir st' = root_dir st ∧ files st' = files st
  ∧ imports st' = imports st ∧ exports st' = exports st
  ∧ (∀ f r, edge st f r → edge st' f r)
  ∧ (∀ import_str r, import_str ∈ imps →
       resolve_import_path env (root_dir st) file_path import_str = Ok (Some r) →
       r ∈ files st → edge st' file_path r).
Proof.
  induction imps as [|imp imps IH]; intros st st' l; simpl.
  - intros [= _ <-]. split_and!; try done. by intros ?? ?%elem_of_nil.
  - intros (l1 & st1 & l2 & Hone & Hrest & _)%bind_inv_Ok.
    destruct (resolve_one_effect _ _ _ _ _ Hone) as (Hr & Hf & Hi & He & Hmono & Hnew).
    destruct (IH _ _ _ Hrest) as (Hr' & Hf' & Hi' & He' & Hmono' & Hnew').
    split_and!; try congruence.
    + intros f r Hedge. by apply Hmono', Hmono.
    + intros import_str r [->|Hin]%elem_of_cons Hres Hscanned.
      * by apply Hmono', Hnew.
      * apply (Hnew' import_str); [done|by rewrite Hr|by rewrite Hf].
  Qed.

Hypothesis Hseed : seed_ok (seed env).

(** What one pass of the outer loop does to the state. *)
Lemma process_file_effect (st st' : Detector) (file_path : Path) (l : list Event) :
  process_file env st file_path = (l, Ok st') →
  root_dir st' = root_dir st ∧ files st' = files st
  ∧ imports st' = <[file_path := imports_of env file_path]> (imports st)
  ∧ exports st' = <[file_path := exports_of env file_path]> (exports st)
  ∧ (∀ f r, edge st f r → edge st' f r)
  ∧ (∀ import_str r, import_str ∈ imports_of env file_path →
       resolve_import_path env (root_dir st) file_path import_str = Ok (Some r) →
       r ∈ files st → edge st' file_path r).
Proof.
  unfold process_file.
  destruct (parse_imports_returns file_path) as [li ->].
  destruct (parse_exports_returns file_path) as [le ->].
  rewrite !bind_Ok; simpl.
  destruct (for_each _ _ _) as [l' [st''|e]] eqn:Hloop; simpl; [|done].
  intros [= _ <-].
  destruct (inner_loop_effect _ _ _ _ _ Hloop) as (Hr & Hf & Hi & He & Hmono & Hnew).
  simpl in *. split_and!; try done.
  intros import_str r Hin. apply Hnew.
  rewrite (str_order_ok _ Hseed). by apply elem_of_elements.
Qed.

Lemma process_file_inv (st st' : Detector) (file_path : Path) (l : list Event) :
  file_path ∈ fls →
  graph_inv env root fls st →
  process_file env st file_path = (l, Ok st') →
  graph_inv env root fls st'.
Proof.
  intros Hfile Hinv. unfold process_file.
  destruct (parse_imports_returns file_path) as [li ->].
  destruct (parse_exports_returns file_path) as [le ->].
  rewrite !bind_Ok; simpl.
  destruct (for_each _ _ _) as [l' [st''|e]] eqn:Hloop; simpl; [|done].
  intros [= _ <-].
  eapply (for_each_invariant _
            (λ s, graph_inv env root fls s ∧ is_Some (imports s !! file_path)));
    [| |exact Hloop].
  - intros s x lx s' Hx [Hs Hsome] Hbody.
    eapply resolve_one_inv; [exact Hfile| |exact Hsome|exact Hs|exact Hbody].
    rewrite (str_order_ok _ Hseed) in Hx. by apply elem_of_elements in Hx.
  - destruct Hinv as [Hr Hf Hi He Hedges]. split.
    + split; simpl; try done.
      * intros f s. rewrite lookup_insert. case_decide; naive_solver.
      * intros f s. rewrite lookup_insert. case_decide; naive_solver.
      * intros f r Hedge. destruct (Hedges f r Hedge) as (? & ? & ? & ?).
        split_and!; [done|done| |done].
        rewrite lookup_insert. case_decide; eauto.
    + simpl. rewrite lookup_insert_eq. eauto.
Qed.

(** A completed pass of the outer loop keeps the invariant, keeps every
    file processed and leaves every visited file processed. *)
Lemma outer_loop_effect (xs : list Path) :
  (∀ x, x ∈ xs → x ∈ fls) →
  ∀ (st st' : Detector) (l : list Event),
  graph_inv env root fls st →
  for_each xs (process_file env) st = (l, Ok st') →
  graph_inv env root fls st'
  ∧ (∀ f, processed env root fls st f → processed env root fls st' f)
  ∧ (∀ f, f ∈ xs → processed env root fls st' f).
Proof.
  induction xs as [|x xs IH]; intros Hxs st st' l Hinv; simpl.
  - intros [= _ <-]. split_and!; try done. by intros ? ?%elem_of_nil.
  - intros (l1 & st1 & l2 & Hone & Hrest & _)%bind_inv_Ok.
    assert (x ∈ fls) as Hx by (apply Hxs; by left).
    pose proof (process_file_inv _ _ _ _ Hx Hinv Hone) as Hinv1.
    destruct (process_file_effect _ _ _ _ Hone) as (Hr & Hf & Hi & He & Hmono & Hnew).
    destruct (IH (λ y Hy, Hxs y (list_elem_of_further _ _ _ Hy)) _ _ _ Hinv1 Hrest)
      as (Hinv' & Hkeep & Hvisited).
    assert (∀ f, processed env root fls st f → processed env root fls st1 f) as Hkeep1.
    { intros f (Hpi & Hpe & Hpedges). split_and!.
      - rewrite Hi, lookup_insert. by case_decide; subst.
      - rewrite He, lookup_insert. by case_decide; subst.
      - intros import_str r ???. by apply Hmono, (Hpedges import_str). }
    split_and!; [done|by intros f ?; apply Hkeep, Hkeep1|].
    intros f [->|Hin]%elem_of_cons; [|by apply Hvisited].
    apply Hkeep. split_and!.
    + by rewrite Hi, lookup_insert_eq.
    + by rewrite He, lookup_insert_eq.
    + intros import_str r Himp Hres Hscanned. apply (Hnew import_str); [done| |].
      * by rewrite (inv_root _ _ _ _ Hinv).
      * by rewrite (inv_files _ _ _ _ Hinv).
Qed.

End Builder.

(** A completed analysis is the scan followed by a completed pass of the
    outer loop over the scanned set; it ends in a state that satisfies the
    invariant and in which every scanned file is processed. *)
Lemma analyse_unfold (env : Env) (root : Path) (log : list Event) (st : Detector) :
  seed_ok (seed env) →
  analyse env root = (log, Ok st) →
  ∃ loop_log,
    for_each (path_order (seed env) (files st)) (process_file env)
             (set_files (init root) (files st)) = (loop_log, Ok st)
    ∧ log = [PrintScanning root; PrintFound (size (files st)); PrintBuilding] ++ loop_log
    ∧ graph_inv env root (files st) st
    ∧ (∀ f, f ∈ files st → processed env root (files st) st f).
Proof.
  intros Hseed. unfold analyse, scan_files, print, build_dependency_graph.
  rewrite !bind_Ok; simpl.
  set (fls := ∅ ∪ list_to_set _).
  destruct (for_each _ _ _) as [l' [st''|e]] eqn:Hloop; simpl; [|done].
  intros [= <- <-]. exists l'.
  assert (∀ x, x ∈ path_order (seed env) fls ↔ x ∈ fls) as Horder.
  { intros x. rewrite (path_order_ok _ Hseed). apply elem_of_elements. }
  destruct (outer_loop_effect env root fls Hseed _ (λ x, proj1 (Horder x))
              _ _ _ (graph_inv_init env root fls) Hloop) as (Hinv & _ & Hvisited).
  rewrite (inv_files _ _ _ _ Hinv). split_and!; try done.
  intros f Hf. by apply Hvisited, Horder.
Qed.

Lemma analyse_inv (env : Env) (root : Path) (log : list Event) (st : Detector) :
  seed_ok (seed env) →
  analyse env root = (log, Ok st) →
  graph_inv env root (files st) st.
Proof.
  intros Hseed Hrun.
  by destruct (analyse_unfold _ _ _ _ Hseed Hrun) as (? & _ & _ & ? & _).
Qed.

(* ===================================================================== *)
(** ** The classifier *)
(* ===================================================================== *)

Section Classifier.

Context (st : Detector).

Lemma elem_of_imported_files (r : Path) :
  r ∈ imported_files st ↔ ∃ f, edge st f r.
Proof.
  unfold imported_files, edge, get. rewrite elem_of_union_list. split.
  - intros (X & HX & Hr). apply list_elem_of_fmap in HX as ([f X'] & -> & Hin).
    apply elem_of_map_to_list in Hin. exists f. simpl in *. by rewrite Hin.
  - intros (f & Hr). destruct (file_imports st !! f) as [X|] eqn:Hf; simpl in Hr.
    + exists X. split; [|done]. apply list_elem_of_fmap. exists (f, X).
      split; [done|]. by apply elem_of_map_to_list.
    + by apply not_elem_of_empty in Hr.
Qed.

Lemma elem_of_find_unused_files (f : Path) :
  f ∈ find_unused_files st ↔
  f ∈ files st ∧ f ∉ imported_files st ∧ is_entry_point f = false.
Proof. unfold find_unused_files. rewrite elem_of_filter. tauto. Qed.

Lemma elem_of_find_orphaned_files (f : Path) :
  f ∈ find_orphaned_files st ↔
  f ∈ files st ∧ get (imports st) f = ∅ ∧ get (exports st) f = ∅
  ∧ is_entry_point f = false.
Proof. unfold find_orphaned_files. rewrite elem_of_filter. tauto. Qed.

Lemma elem_of_find_files_with_no_exports (f : Path) :
  f ∈ find_files_with_no_exports st ↔
  f ∈ files st ∧ get (imports st) f ≠ ∅ ∧ get (exports st) f = ∅
  ∧ is_entry_point f = false.
Proof. unfold find_files_with_no_exports. rewrite elem_of_filter. tauto. Qed.

End Classifier.

(** The orders of [seed_of] are iteration orders. *)
Lemma seed_of_ok (exts : list string) :
  exts ≡ₚ include_extensions → seed_ok (seed_of exts).
Proof. intros H. by split. Qed.

(** In a completed analysis, a file with an outgoing edge has at least one
    specifier. *)
Lemma edge_has_imports (env : Env) (root : Path) (log : list Event)
    (st : Detector) (f r : Path) :
  seed_ok (seed env) →
  analyse env root = (log, Ok st) →
  edge st f r → get (imports st) f ≠ ∅.
Proof.
  intros Hseed Hrun Hedge.
  destruct (analyse_inv _ _ _ _ Hseed Hrun) as [_ _ Hi _ He].
  destruct (He f r Hedge) as (_ & _ & [s Hs] & imp & Himp & _).
  unfold get. rewrite Hs; simpl. rewrite (Hi f s Hs). set_solver.
Qed.

(* ===================================================================== *)
(** ** The detector on the sample repositories *)
(* ===================================================================== *)

(** The extractor on one line of each kind. *)
Example extractor_check :
  Re.finditer (nth 0 import_patterns (Re.Lit "")) "import { b } from './b';" = [Some "./b"]
  ∧ Re.finditer (nth 1 import_patterns (Re.Lit "")) "const m = import('./lazy');"
    = [Some "./lazy"]
  ∧ Re.finditer (nth 2 import_patterns (Re.Lit "")) "const c = require ('./c');"
    = [Some "./c"]
  ∧ Re.finditer (nth 3 import_patterns (Re.Lit "")) "export * from './d';" = [Some "./d"]
  ∧ Re.finditer (nth 0 export_patterns (Re.Lit "")) "export default async function go() {}"
    = [Some "go"]
  ∧ Re.finditer (nth 1 export_patterns (Re.Lit "")) "export { a, b as c };"
    = [Some " a, b as c "]
  ∧ Re.finditer (nth 2 export_patterns (Re.Lit "")) "export default 1;" = [None]
  ∧ Re.finditer (nth 0 import_patterns (Re.Lit "")) "import './side-effect';" = [].
Proof. vm_compute. done. Qed.

(** [pathlib] on a few paths. *)
Example pathlib_check :
  Pathlib.of_str "//a/./b/../c//d/" = ["//"; "a"; "b"; ".."; "c"; "d"]
  ∧ Pathlib.resolve ["/"] (Pathlib.joinpath ["/"; "r"; "x"] "../../../../a/./b")
    = ["/"; "a"; "b"]
  ∧ Pathlib.with_suffix ["/"; "r"; "name.part"] ".ts" = Some ["/"; "r"; "name.ts"]
  ∧ Pathlib.with_suffix ["/"; "r"; ".hidden"] ".ts" = Some ["/"; "r"; ".hidden.ts"]
  ∧ Pathlib.with_suffix ["/"] ".ts" = None
  ∧ Pathlib.suffix ["/"; "r"; "a.b."] = ""
  ∧ Pathlib.to_str ["/"; "r"; "x"] = "/r/x".
Proof. vm_compute. done. Qed.

(** Three files: a.ts imports b.ts; c.ts is empty.  Nothing imports a.ts
    and c.ts; only c.ts is without specifier and export. *)
Example three_files_check :
  let st := Samples.final (analyse Samples.three_files Samples.repo) in
  returned (analyse Samples.three_files Samples.repo) = Some st
  ∧ find_unused_files st = {[Samples.a_ts; Samples.c_ts]}
  ∧ find_orphaned_files st = {[Samples.c_ts]}
  ∧ find_files_with_no_exports st = {[Samples.a_ts]}.
Proof. split_and!; [vm_compute; reflexivity|compute_done..]. Qed.

(** The alias of an application, the alias of a package, and a directory
    resolved to its index file. *)
Example monorepo_check :
  resolve_import_path Samples.monorepo Samples.repo
    (Samples.web_src ++ ["index.ts"]) "@/utils/helpers"
  = Ok (Some (Samples.web_src ++ ["utils"; "helpers.ts"]))
  ∧ resolve_import_path Samples.monorepo Samples.repo (Samples.ui_src ++ ["a.ts"]) "@/b"
    = Ok (Some (Samples.ui_src ++ ["b.tsx"]))
  ∧ resolve_import_path Samples.monorepo Samples.repo (Samples.ui_src ++ ["a.ts"]) "./sub"
    = Ok (Some (Samples.ui_src ++ ["sub"; "index.js"]))
  ∧ find_unused_files (Samples.final (analyse Samples.monorepo Samples.repo))
    = {[Samples.ui_src ++ ["a.ts"]]}.
Proof. split_and!; [vm_compute; reflexivity..|compute_done]. Qed.

(* ===================================================================== *)
(** ** The properties *)
(* ===================================================================== *)

(** C1, as the specification states it, fails: in the checkout [cycle] the
    files a.ts and b.ts import each other, nothing else imports them and
    neither is an entry point, yet neither is in the unused set. *)
Lemma cyclic_pair_unused_counterexample :
  ∃ log st,
    analyse Samples.cycle Samples.repo = (log, Ok st)
    ∧ files st = {[Samples.a_ts; Samples.b_ts]}
    ∧ edge st Samples.a_ts Samples.b_ts
    ∧ edge st Samples.b_ts Samples.a_ts
    ∧ is_entry_point Samples.a_ts = false
    ∧ is_entry_point Samples.b_ts = false
    ∧ Samples.a_ts ∉ find_unused_files st
    ∧ Samples.b_ts ∉ find_unused_files st.
Proof.
  eexists _, _. split; [vm_compute; reflexivity|].
  split_and!; compute_done.
Qed.

(** C1, amended: in every completed run in which two files import each
    other, neither of them is in the unused set (each is the target of an
    edge) and neither is in the orphaned set (each has a specifier). *)
Theorem cyclic_pair_not_reported (env : Env) (root : Path) (log : list Event)
    (st : Detector) (a b : Path) :
  seed_ok (seed env) →
  analyse env root = (log, Ok st) →
  edge st a b → edge st b a →
  a ∉ find_unused_files st ∧ b ∉ find_unused_files st
  ∧ a ∉ find_orphaned_files st ∧ b ∉ find_orphaned_files st.
Proof.
  intros Hseed Hrun Hab Hba.
  pose proof (edge_has_imports _ _ _ _ _ _ Hseed Hrun Hab) as Ha.
  pose proof (edge_has_imports _ _ _ _ _ _ Hseed Hrun Hba) as Hb.
  rewrite !elem_of_find_unused_files, !elem_of_find_orphaned_files,
    !elem_of_imported_files.
  split_and!; naive_solver.
Qed.

(** The checkout [cycle] is such a run. *)
Lemma cyclic_pair_not_reported_witness :
  let st := Samples.final (analyse Samples.cycle Samples.repo) in
  Samples.a_ts ∉ find_unused_files st ∧ Samples.b_ts ∉ find_unused_files st
  ∧ Samples.a_ts ∉ find_orphaned_files st ∧ Samples.b_ts ∉ find_orphaned_files st.
Proof.
  intros st.
  apply (cyclic_pair_not_reported Samples.cycle Samples.repo
           (analyse Samples.cycle Samples.repo).1 st).
  - apply seed_of_ok. reflexivity.
  - vm_compute. reflexivity.
  - compute_done.
  - compute_done.
Defined.

(** C2, as the specification states it, fails: in the checkout
    [side_effect] the file c.ts has no specifier and no export, so it is
    orphaned, but a.ts imports it, so it is not unused. *)
Lemma orphaned_subset_unused_counterexample :
  ∃ log st,
    analyse Samples.side_effect Samples.repo = (log, Ok st)
    ∧ Samples.c_ts ∈ find_orphaned_files st
    ∧ Samples.c_ts ∉ find_unused_files st
    ∧ ¬ (find_orphaned_files st ⊆ find_unused_files st).
Proof.
  eexists _, _. split; [vm_compute; reflexivity|].
  assert (∀ X Y : gset Path, Samples.c_ts ∈ X → Samples.c_ts ∉ Y → ¬ (X ⊆ Y))
    as Hnot by set_solver.
  split_and!; [compute_done | compute_done | apply Hnot; compute_done].
Qed.

(** C2, amended: in every state of the detector, hence at the end of every
    run, a file reported as orphaned is reported as unused exactly when it
    is not the target of an edge: every orphaned file that no file imports
    is unused, and every orphaned file that some file imports is not
    unused. *)
Theorem orphaned_unused_iff_not_imported (st : Detector) (f : Path) :
  f ∈ find_orphaned_files st →
  (f ∈ find_unused_files st ↔ ¬ ∃ g, edge st g f)
  ∧ ((∃ g, edge st g f) → f ∉ find_unused_files st).
Proof.
  intros (Hf & _ & _ & Hentry)%elem_of_find_orphaned_files.
  rewrite elem_of_find_unused_files, elem_of_imported_files. tauto.
Qed.

(** Both cases: c.ts of [three_files], which no file imports, is orphaned
    and unused; c.ts of [side_effect], which a.ts imports, is orphaned and
    not unused. *)
Lemma orphaned_unused_iff_not_imported_witness :
  let st1 := Samples.final (analyse Samples.three_files Samples.repo) in
  let st2 := Samples.final (analyse Samples.side_effect Samples.repo) in
  (Samples.c_ts ∈ find_orphaned_files st1
   ∧ Samples.c_ts ∈ find_unused_files st1
   ∧ ¬ ∃ g, edge st1 g Samples.c_ts)
  ∧ (Samples.c_ts ∈ find_orphaned_files st2
     ∧ edge st2 Samples.a_ts Samples.c_ts
     ∧ Samples.c_ts ∉ find_unused_files st2).
Proof.
  intros st1 st2. split.
  - assert (Samples.c_ts ∈ find_orphaned_files st1) as Horph by compute_done.
    destruct (orphaned_unused_iff_not_imported st1 Samples.c_ts Horph) as [Hiff _].
    assert (Samples.c_ts ∈ find_unused_files st1) as Hunused by compute_done.
    split_and!; [done|done|by apply Hiff].
  - assert (Samples.c_ts ∈ find_orphaned_files st2) as Horph by compute_done.
    destruct (orphaned_unused_iff_not_imported st2 Samples.c_ts Horph) as [_ Himp].
    assert (edge st2 Samples.a_ts Samples.c_ts) as Hedge by compute_done.
    split_and!; [done|done|]. apply Himp. by exists Samples.a_ts.
Defined.

(** C7: in every state of the detector, hence at the end of every run, a
    file that matches the entry-point predicate is in neither the unused
    nor the orphaned set, whatever its edges, specifiers and exports
    are. *)
Theorem entry_point_never_reported (st : Detector) (file_path : Path) :
  is_entry_point file_path = true →
  file_path ∉ find_unused_files st ∧ file_path ∉ find_orphaned_files st.
Proof.
  intros Hentry.
  rewrite elem_of_find_unused_files, elem_of_find_orphaned_files.
  split; intros H; destruct_and!; congruence.
Qed.

(** The file page.tsx of [lone_page]: scanned, no edge, no specifier, no
    export, and in neither set. *)
Lemma entry_point_never_reported_witness :
  let st := Samples.final (analyse Samples.lone_page Samples.repo) in
  (Samples.page_tsx ∈ files st ∧ ¬ (∃ f, edge st f Samples.page_tsx)
   ∧ get (imports st) Samples.page_tsx = ∅ ∧ get (exports st) Samples.page_tsx = ∅)
  ∧ Samples.page_tsx ∉ find_unused_files st
  ∧ Samples.page_tsx ∉ find_orphaned_files st.
Proof.
  intros st. split.
  - split_and!; [compute_done| |compute_done|compute_done].
    rewrite <- elem_of_imported_files. compute_done.
  - apply (entry_point_never_reported st Samples.page_tsx). reflexivity.
Defined.

(** C10: in every state of the detector, hence at the end of every run, no
    file is both orphaned and export-less; the first asks for an empty set
    of specifiers and the second for a non-empty one. *)
Theorem orphaned_disjoint_no_exports (st : Detector) :
  find_orphaned_files st ## find_files_with_no_exports st.
Proof.
  intros f Horph Hno.
  apply elem_of_find_orphaned_files in Horph as (_ & Hempty & _).
  apply elem_of_find_files_with_no_exports in Hno as (_ & Hnonempty & _).
  done.
Qed.

(** C4: a specifier that starts with none of [.], [/] and [@/] resolves to
    [None], from any file, and the pass of the graph builder over it leaves
    the graph as it was. *)
Theorem external_specifier_unresolved (env : Env) (root from_file : Path)
    (import_str : string) :
  Str.startswith "." import_str = false →
  Str.startswith "/" import_str = false →
  Str.startswith "@/" import_str = false →
  resolve_import_path env root from_file import_str = Ok None
  ∧ ∀ st, resolve_one env from_file st import_str = ([], Ok st).
Proof.
  intros Hdot Hslash Halias.
  assert (∀ r, resolve_import_path env r from_file import_str = Ok None) as Hres.
  { intros r. unfold resolve_import_path. by rewrite Hdot, Hslash, Halias. }
  split; [apply Hres|].
  intros st. unfold resolve_one, lift. by rewrite Hres.
Qed.

(** The package name [react], imported from a.ts. *)
Lemma external_specifier_unresolved_witness :
  resolve_import_path Samples.cycle Samples.repo Samples.a_ts "react" = Ok None
  ∧ ∀ st, resolve_one Samples.cycle Samples.a_ts st "react" = ([], Ok st).
Proof.
  apply (external_specifier_unresolved Samples.cycle Samples.repo Samples.a_ts "react");
    reflexivity.
Defined.

(** In a completed analysis, a file that could not be read has no specifier
    and no export. *)
Lemma unreadable_has_nothing (env : Env) (root : Path) (log : list Event)
    (st : Detector) (file_path : Path) :
  seed_ok (seed env) →
  analyse env root = (log, Ok st) →
  Fs.read_text (fs env) file_path = None →
  get (imports st) file_path = ∅ ∧ get (exports st) file_path = ∅.
Proof.
  intros Hseed Hrun Hread.
  destruct (analyse_inv _ _ _ _ Hseed Hrun) as [_ _ Hi He _].
  unfold get. split.
  - destruct (imports st !! file_path) as [s|] eqn:Hs; [|done]; simpl.
    rewrite (Hi _ _ Hs). by apply imports_of_unreadable.
  - destruct (exports st !! file_path) as [s|] eqn:Hs; [|done]; simpl.
    rewrite (He _ _ Hs). by apply exports_of_unreadable.
Qed.

(** The pass of the outer loop over a file that cannot be read: two
    warnings, no exception, empty sets recorded. *)
Lemma process_file_unreadable (env : Env) (st : Detector) (file_path : Path) :
  seed_ok (seed env) →
  Fs.read_text (fs env) file_path = None →
  process_file env st file_path
  = ([PrintWarning file_path; PrintWarning file_path],
     Ok (set_parsed st file_path ∅ ∅)).
Proof.
  intros Hseed Hread. unfold process_file.
  rewrite parse_imports_unreadable, parse_exports_unreadable by done.
  rewrite !bind_Ok; simpl.
  pose proof (str_order_ok _ Hseed ∅) as Hperm.
  rewrite elements_empty in Hperm. apply Permutation_nil_r in Hperm.
  by rewrite Hperm.
Qed.

(** C6, as the specification states it, fails for a file that cannot be
    decoded.  The file a.ts of [Cases.lossy] holds an import line followed
    by the bytes 0xFF 0xFE, so its bytes are not UTF-8; [read_text] is
    called with errors='ignore', drops the two bytes and returns the line.
    The run prints no warning, a.ts has a specifier, and a.ts is not
    orphaned although it is not an entry point. *)
Lemma undecodable_file_counterexample :
  undecodable Cases.lossy_bytes = true
  ∧ Fs.at_path (fs Cases.lossy) Samples.a_ts = Some (stored Cases.lossy_bytes)
  ∧ is_entry_point Samples.a_ts = false
  ∧ ∃ st,
      analyse Cases.lossy Samples.repo
      = ([PrintScanning Samples.repo; PrintFound 2; PrintBuilding], Ok st)
      ∧ Samples.a_ts ∈ files st
      ∧ get (imports st) Samples.a_ts = {["./b"]}
      ∧ Samples.a_ts ∉ find_orphaned_files st.
Proof.
  split_and!; [reflexivity..|].
  eexists. split; [vm_compute; reflexivity|].
  split_and!; compute_done.
Qed.

(** C6, amended: a file whose text cannot be read does not stop the run.
    Both extractors print a warning and return the empty set; the pass of
    the graph builder over the file returns; and in every completed run
    that scanned the file, the warning is in the output and the file is
    orphaned exactly when it is not an entry point. *)
Theorem unreadable_file_is_orphaned (env : Env) (file_path : Path) :
  seed_ok (seed env) →
  Fs.read_text (fs env) file_path = None →
  parse_imports env file_path = ([PrintWarning file_path], Ok ∅)
  ∧ parse_exports env file_path = ([PrintWarning file_path], Ok ∅)
  ∧ (∀ st, ∃ st', process_file env st file_path
                  = ([PrintWarning file_path; PrintWarning file_path], Ok st'))
  ∧ (∀ root log st,
       analyse env root = (log, Ok st) → file_path ∈ files st →
       PrintWarning file_path ∈ log
       ∧ (file_path ∈ find_orphaned_files st ↔ is_entry_point file_path = false)).
Proof.
  intros Hseed Hread. split_and!.
  - by apply parse_imports_unreadable.
  - by apply parse_exports_unreadable.
  - intros st. eexists. by apply process_file_unreadable.
  - intros root log st Hrun Hin. split.
    + destruct (analyse_unfold _ _ _ _ Hseed Hrun) as (l & Hloop & -> & _ & _).
      apply elem_of_app. right.
      eapply (for_each_log (process_file env) _ file_path); [| |exact Hloop].
      * rewrite (path_order_ok _ Hseed). by apply elem_of_elements.
      * intros s. rewrite process_file_unreadable by done. simpl. by left.
    + destruct (unreadable_has_nothing _ _ _ _ _ Hseed Hrun Hread) as [Hi He].
      rewrite elem_of_find_orphaned_files. naive_solver.
Qed.

(** The file d.ts of [unreadable]. *)
Lemma unreadable_file_is_orphaned_witness :
  let run := analyse Samples.unreadable Samples.repo in
  PrintWarning Samples.d_ts ∈ run.1
  ∧ (Samples.d_ts ∈ find_orphaned_files (Samples.final run)
     ↔ is_entry_point Samples.d_ts = false).
Proof.
  intros run.
  destruct (unreadable_file_is_orphaned Samples.unreadable Samples.d_ts)
    as (_ & _ & _ & Hrun).
  - apply seed_of_ok. reflexivity.
  - reflexivity.
  - apply (Hrun Samples.repo run.1 (Samples.final run)).
    + vm_compute. reflexivity.
    + compute_done.
Defined.

(** C3, as the specification states it, fails: asked to scan the missing
    directory /repo/gone the script exits with status 1, which is also the
    status of a run over [three_files] that has findings. *)
Lemma missing_root_exit_code_counterexample :
  Fs.exists_ (fs Samples.three_files) Samples.gone = false
  ∧ exit_status (main Samples.three_files Samples.gone_args) = 1%Z
  ∧ ∃ log st,
      analyse Samples.three_files Samples.repo = (log, Ok st)
      ∧ find_unused_files st ≠ ∅
      ∧ exit_status (main Samples.three_files Samples.no_args) = 1%Z.
Proof.
  split_and!; [reflexivity | reflexivity |].
  eexists _, _. split; [vm_compute; reflexivity|].
  split; [compute_done | vm_compute; reflexivity].
Qed.

(** C3, amended: when the root does not exist, [main] prints the error and
    returns 1 without scanning (nothing else is printed); otherwise a run
    that completes exits with 0 when the unused and the orphaned sets are
    both empty and with 1 when either is not. *)
Theorem exit_code_of_main (env : Env) (args : Args) :
  let root_dir := Pathlib.resolve (cwd env) (Pathlib.of_str (root args)) in
  (Fs.exists_ (fs env) root_dir = false →
   main env args = ([PrintError root_dir], Ok 1%Z))
  ∧ (Fs.exists_ (fs env) root_dir = true →
     ∀ log st, analyse env root_dir = (log, Ok st) →
       exit_status (main env args)
       = if decide (find_unused_files st = ∅ ∧ find_orphaned_files st = ∅)
         then 0%Z else 1%Z).
Proof.
  intros root_dir. split; intros Hex; unfold main; fold root_dir; rewrite Hex; simpl.
  - done.
  - intros log st ->. rewrite bind_Ok; simpl.
    destruct (Nat.ltb_spec 0 (size (find_unused_files st))) as [Hu|Hu]; simpl.
    + rewrite decide_False; [done|]. intros [Hempty _].
      rewrite Hempty, size_empty in Hu. lia.
    + destruct (Nat.ltb_spec 0 (size (find_orphaned_files st))) as [Ho|Ho]; simpl.
      * rewrite decide_False; [done|]. intros [_ Hempty].
        rewrite Hempty, size_empty in Ho. lia.
      * rewrite decide_True; [done|].
        split; apply leibniz_equiv, size_empty_iff; lia.
Qed.

(** A missing root, a clean run and a run with findings. *)
Lemma exit_code_of_main_witness :
  main Samples.three_files Samples.gone_args = ([PrintError Samples.gone], Ok 1%Z)
  ∧ exit_status (main Samples.cycle Samples.no_args) = 0%Z
  ∧ exit_status (main Samples.three_files Samples.no_args) = 1%Z.
Proof.
  split_and!.
  - apply (exit_code_of_main Samples.three_files Samples.gone_args). reflexivity.
  - destruct (exit_code_of_main Samples.cycle Samples.no_args) as [_ Hrun].
    rewrite (Hrun eq_refl (analyse Samples.cycle Samples.repo).1
               (Samples.final (analyse Samples.cycle Samples.repo)));
      [compute_done | vm_compute; reflexivity].
  - destruct (exit_code_of_main Samples.three_files Samples.no_args) as [_ Hrun].
    rewrite (Hrun eq_refl (analyse Samples.three_files Samples.repo).1
               (Samples.final (analyse Samples.three_files Samples.repo)));
      [compute_done | vm_compute; reflexivity].
Defined.

(* ===================================================================== *)
(** ** Where the resolver departs from its specification *)
(* ===================================================================== *)

Section Suffixes.

Context (env : Env) (candidate : Path).

(** When no replaced-suffix candidate exists, the loop over the
    extensions finds nothing. *)
Lemma try_suffixes_none (exts : list string) :
  (∀ ext, ext ∈ exts →
     ∃ c, Pathlib.with_suffix candidate ext = Some c ∧ Fs.exists_ (fs env) c = false) →
  try_suffixes env candidate exts = Ok None.
Proof.
  induction exts as [|ext exts IH]; intros Hall; simpl; [done|].
  destruct (Hall ext) as (c & -> & ->); [by left|].
  apply IH. intros ext' Hin. apply Hall. by right.
Qed.

(** When exactly one extension has an existing replaced-suffix candidate,
    the loop finds it wherever that extension comes in the order. *)
Lemma try_suffixes_only (exts : list string) (ext0 : string) (c0 : Path) :
  ext0 ∈ exts →
  Pathlib.with_suffix candidate ext0 = Some c0 →
  Fs.exists_ (fs env) c0 = true →
  (∀ ext, ext ∈ exts → ext ≠ ext0 →
     ∃ c, Pathlib.with_suffix candidate ext = Some c ∧ Fs.exists_ (fs env) c = false) →
  try_suffixes env candidate exts = Ok (Some c0).
Proof.
  intros Hin Hc0 Hex0. induction exts as [|ext exts IH]; intros Hall; simpl.
  - by apply elem_of_nil in Hin.
  - destruct (decide (ext = ext0)) as [->|Hne].
    + by rewrite Hc0, Hex0.
    + destruct (Hall ext) as (c & -> & ->); [by left|done|].
      apply elem_of_cons in Hin as [->|Hin]; [done|].
      apply IH; [done|]. intros ext' Hin' Hne'. apply Hall; [by right|done].
Qed.

End Suffixes.

Lemma elem_of_include_extensions (ext : string) :
  ext ∈ include_extensions →
  ext = ".ts" ∨ ext = ".tsx" ∨ ext = ".js" ∨ ext = ".jsx" ∨ ext = ".mjs" ∨ ext = ".cjs".
Proof. unfold include_extensions. rewrite !elem_of_cons, elem_of_nil. tauto. Qed.

(** C5 at the failing input.  The module name.part.ts exists and a.ts
    imports it as [./name.part]; whatever the order of the extensions, the
    resolver does not find it, because [with_suffix] turns the candidate
    name.part into name.ts, name.tsx, ... and never into name.part.ts.  Next
    to a module name.ts, the same specifier resolves to name.ts. *)
Theorem dotted_specifier_misresolved (sd : HashSeed) :
  seed_ok sd →
  Fs.exists_ (fs (Samples.dotted sd)) Samples.name_part_ts = true
  ∧ resolve_import_path (Samples.dotted sd) Samples.repo Samples.a_ts "./name.part"
    = Ok None
  ∧ resolve_import_path (Samples.dotted_shadowed sd) Samples.repo Samples.a_ts
      "./name.part"
    = Ok (Some Samples.name_ts).
Proof.
  intros [Hexts _ _]. split_and!; [reflexivity| |].
  - change (resolve_import_path _ _ _ _)
      with (try_candidates (Samples.dotted sd) ["/"; "repo"; "name.part"]).
    unfold try_candidates.
    rewrite try_suffixes_none; [reflexivity|].
    intros ext Hin. rewrite Hexts in Hin.
    apply elem_of_include_extensions in Hin.
    destruct_or!; subst ext; eexists; (split; [reflexivity|reflexivity]).
  - change (resolve_import_path _ _ _ _)
      with (try_candidates (Samples.dotted_shadowed sd) ["/"; "repo"; "name.part"]).
    unfold try_candidates.
    rewrite (try_suffixes_only _ _ _ ".ts" Samples.name_ts); [reflexivity| | | |].
    + simpl. rewrite Hexts. unfold include_extensions. by left.
    + reflexivity.
    + reflexivity.
    + intros ext Hin Hne. simpl in Hin. rewrite Hexts in Hin.
      apply elem_of_include_extensions in Hin.
      destruct_or!; subst ext; try done; eexists; (split; [reflexivity|reflexivity]).
Qed.

(** The order in which the extensions are written. *)
Lemma dotted_specifier_misresolved_witness :
  Fs.exists_ (fs (Samples.dotted Samples.ts_first)) Samples.name_part_ts = true
  ∧ resolve_import_path (Samples.dotted Samples.ts_first) Samples.repo Samples.a_ts
      "./name.part" = Ok None
  ∧ resolve_import_path (Samples.dotted_shadowed Samples.ts_first) Samples.repo
      Samples.a_ts "./name.part" = Ok (Some Samples.name_ts).
Proof.
  apply (dotted_specifier_misresolved Samples.ts_first).
  apply seed_of_ok. reflexivity.
Defined.

(* ===================================================================== *)
(** ** What a run depends on *)
(* ===================================================================== *)

Lemma analyse_files (env : Env) (root : Path) (log : list Event) (st : Detector) :
  seed_ok (seed env) →
  analyse env root = (log, Ok st) →
  files st = scanned_files env root.
Proof.
  intros Hseed. unfold analyse, scan_files, print, build_dependency_graph.
  rewrite !bind_Ok; simpl.
  set (fls := ∅ ∪ list_to_set _).
  destruct (for_each _ _ _) as [l' [st''|e]] eqn:Hloop; simpl; [|done].
  intros [= _ <-].
  assert (files st'' = fls) as ->.
  { eapply (for_each_invariant _ (λ s, files s = fls)); [| |exact Hloop]; [|done].
    intros s x l s' _ <- Hbody.
    by destruct (process_file_effect _ Hseed _ _ _ _ Hbody) as (_ & ? & _). }
  unfold fls, scanned_files. rewrite (left_id_L ∅ (∪)).
  by destruct (Fs.at_path (fs env) root).
Qed.

Section SameDisk.

(** Two processes on the same disk, started in the same directory, that
    visit the extensions in the same order. *)
Context (env1 env2 : Env).
Hypothesis Hfs : fs env1 = fs env2.
Hypothesis Hcwd : cwd env1 = cwd env2.
Hypothesis Hexts : ext_order (seed env1) = ext_order (seed env2).

Lemma try_suffixes_same (candidate : Path) (exts : list string) :
  try_suffixes env1 candidate exts = try_suffixes env2 candidate exts.
Proof.
  induction exts as [|ext exts IH]; simpl; [done|].
  rewrite Hfs, IH. done.
Qed.

Lemma try_index_same (candidate : Path) (exts : list string) :
  try_index env1 candidate exts = try_index env2 candidate exts.
Proof.
  induction exts as [|ext exts IH]; simpl; [done|].
  rewrite Hfs, IH. done.
Qed.

Lemma resolve_import_path_same (root from_file : Path) (import_str : string) :
  resolve_import_path env1 root from_file import_str
  = resolve_import_path env2 root from_file import_str.
Proof.
  unfold resolve_import_path, try_candidates, alias_base.
  rewrite Hfs, Hcwd, Hexts.
  repeat first [ done | rewrite try_suffixes_same | rewrite try_index_same
               | case_match ].
Qed.

Lemma imports_of_same (file_path : Path) :
  imports_of env1 file_path = imports_of env2 file_path.
Proof. unfold imports_of, parse_imports. by rewrite Hfs. Qed.

Lemma exports_of_same (file_path : Path) :
  exports_of env1 file_path = exports_of env2 file_path.
Proof. unfold exports_of, parse_exports. by rewrite Hfs. Qed.

Lemma scanned_files_same (root : Path) :
  scanned_files env1 root = scanned_files env2 root.
Proof. unfold scanned_files. by rewrite Hfs. Qed.

End SameDisk.

(** Every edge of one completed run is an edge of the other. *)
Lemma edges_transfer (env1 env2 : Env) (root : Path)
    (log1 log2 : list Event) (st1 st2 : Detector) :
  fs env1 = fs env2 → cwd env1 = cwd env2 →
  ext_order (seed env1) = ext_order (seed env2) →
  seed_ok (seed env1) → seed_ok (seed env2) →
  analyse env1 root = (log1, Ok st1) →
  analyse env2 root = (log2, Ok st2) →
  ∀ f r, edge st1 f r → edge st2 f r.
Proof.
  intros Hfs Hcwd Hexts Hs1 Hs2 Hrun1 Hrun2 f r Hedge.
  pose proof (analyse_files _ _ _ _ Hs1 Hrun1) as Hf1.
  pose proof (analyse_files _ _ _ _ Hs2 Hrun2) as Hf2.
  rewrite (scanned_files_same _ _ Hfs) in Hf1.
  destruct (analyse_unfold _ _ _ _ Hs1 Hrun1) as (_ & _ & _ & [_ _ _ _ Hedges] & _).
  destruct (analyse_unfold _ _ _ _ Hs2 Hrun2) as (_ & _ & _ & _ & Hdone).
  destruct (Hedges f r Hedge) as (Hf & Hr & _ & imp & Himp & Hres).
  rewrite Hf1, <- Hf2 in Hf, Hr.
  destruct (Hdone f Hf) as (_ & _ & Hall).
  apply (Hall imp); [|by rewrite <- (resolve_import_path_same env1 env2)|done].
  by rewrite <- (imports_of_same env1 env2).
Qed.

(** What a scanned file has recorded in a completed run. *)
Lemma recorded (env : Env) (root : Path) (log : list Event) (st : Detector) (f : Path) :
  seed_ok (seed env) →
  analyse env root = (log, Ok st) →
  f ∈ files st →
  get (imports st) f = imports_of env f ∧ get (exports st) f = exports_of env f.
Proof.
  intros Hseed Hrun Hf.
  destruct (analyse_unfold _ _ _ _ Hseed Hrun) as (_ & _ & _ & _ & Hdone).
  destruct (Hdone f Hf) as (Hi & He & _). unfold get. by rewrite Hi, He.
Qed.

(** Two completed runs over the same disk that visit the extensions in the
    same order report the same sets and the same counts, in whatever order
    each of them visits the files and the specifiers of a file. *)
Theorem visit_order_irrelevant (env1 env2 : Env) (root : Path)
    (log1 log2 : list Event) (st1 st2 : Detector) :
  fs env1 = fs env2 → cwd env1 = cwd env2 →
  ext_order (seed env1) = ext_order (seed env2) →
  seed_ok (seed env1) → seed_ok (seed env2) →
  analyse env1 root = (log1, Ok st1) →
  analyse env2 root = (log2, Ok st2) →
  find_unused_files st1 = find_unused_files st2
  ∧ find_orphaned_files st1 = find_orphaned_files st2
  ∧ find_files_with_no_exports st1 = find_files_with_no_exports st2
  ∧ summary (generate_report env1 st1) = summary (generate_report env2 st2).
Proof.
  intros Hfs Hcwd Hexts Hs1 Hs2 Hrun1 Hrun2.
  assert (files st1 = files st2) as Hfiles.
  { rewrite (analyse_files _ _ _ _ Hs1 Hrun1), (analyse_files _ _ _ _ Hs2 Hrun2).
    by apply scanned_files_same. }
  assert (imported_files st1 = imported_files st2) as Himported.
  { apply set_eq. intros r. rewrite !elem_of_imported_files.
    split; intros [f Hedge]; exists f.
    - by eapply (edges_transfer env1 env2).
    - by eapply (edges_transfer env2 env1). }
  assert (∀ f, f ∈ files st1 →
            get (imports st1) f = get (imports st2) f
            ∧ get (exports st1) f = get (exports st2) f) as Hrec.
  { intros f Hf.
    destruct (recorded _ _ _ _ f Hs1 Hrun1 Hf) as [-> ->].
    rewrite Hfiles in Hf. destruct (recorded _ _ _ _ f Hs2 Hrun2 Hf) as [-> ->].
    by rewrite (imports_of_same _ _ Hfs), (exports_of_same _ _ Hfs). }
  assert (find_unused_files st1 = find_unused_files st2) as Hu.
  { apply set_eq. intros f. rewrite !elem_of_find_unused_files.
    by rewrite Hfiles, Himported. }
  assert (find_orphaned_files st1 = find_orphaned_files st2) as Ho.
  { apply set_eq. intros f. rewrite !elem_of_find_orphaned_files, <- Hfiles.
    split; intros (Hf & ?); destruct (Hrec f Hf) as [Hi He];
      rewrite ?Hi, ?He in *; done. }
  assert (find_files_with_no_exports st1 = find_files_with_no_exports st2) as Hn.
  { apply set_eq. intros f. rewrite !elem_of_find_files_with_no_exports, <- Hfiles.
    split; intros (Hf & ?); destruct (Hrec f Hf) as [Hi He];
      rewrite ?Hi, ?He in *; done. }
  split_and!; try done.
  unfold generate_report; simpl. by rewrite Hfiles, Hu, Ho, Hn.
Qed.

Lemma backwards_ok : seed_ok Samples.backwards.
Proof. split; simpl; [done|intros s; apply reverse_Permutation..]. Qed.

(** The three files, visited forwards and backwards. *)
Example visit_order_irrelevant_check :
  let st1 := Samples.final (analyse Samples.three_files Samples.repo) in
  let st2 := Samples.final (analyse Samples.three_files_backwards Samples.repo) in
  path_order (seed Samples.three_files) (files st1)
  ≠ path_order (seed Samples.three_files_backwards) (files st2)
  ∧ find_unused_files st1 = find_unused_files st2
  ∧ find_orphaned_files st1 = find_orphaned_files st2
  ∧ find_files_with_no_exports st1 = find_files_with_no_exports st2
  ∧ summary (generate_report Samples.three_files st1)
    = summary (generate_report Samples.three_files_backwards st2).
Proof.
  intros st1 st2. split_and!; [compute_done..|vm_compute; reflexivity].
Qed.

Lemma tsx_first_ok : seed_ok Samples.tsx_first.
Proof. apply seed_of_ok. apply perm_swap. Qed.

(** C8 at the failing input.  Two runs over the same checkout (a.ts imports
    [./foo]; foo.ts and foo.tsx both exist) that differ only in the order in
    which the process iterates over the set of extensions: the first reports
    foo.tsx as unused, the second foo.ts. *)
Theorem extension_order_changes_result :
  seed_ok Samples.ts_first ∧ seed_ok Samples.tsx_first
  ∧ fs (Samples.two_extensions Samples.ts_first)
    = fs (Samples.two_extensions Samples.tsx_first)
  ∧ ∃ log1 st1 log2 st2,
      analyse (Samples.two_extensions Samples.ts_first) Samples.repo = (log1, Ok st1)
      ∧ analyse (Samples.two_extensions Samples.tsx_first) Samples.repo = (log2, Ok st2)
      ∧ find_unused_files st1 = {[Samples.a_ts; Samples.foo_tsx]}
      ∧ find_unused_files st2 = {[Samples.a_ts; Samples.foo_ts]}
      ∧ find_unused_files st1 ≠ find_unused_files st2.
Proof.
  split_and!; [by apply seed_of_ok | apply tsx_first_ok | reflexivity |].
  eexists _, _, _, _.
  split; [vm_compute; reflexivity|].
  split; [vm_compute; reflexivity|].
  split_and!; compute_done.
Qed.

(** C9 at the failing inputs.  The scanned file packages-old/a.ts imports
    [@/x]: its relative path starts with the text [packages], no part of
    its path is [packages], and [parts.index] raises.  The scanned file a.ts
    imports [../..]: the candidate is the root of the file system, whose
    name is empty, and [with_suffix] raises.  In both checkouts the
    exception leaves [build_dependency_graph] and the run ends without a
    report. *)
Theorem resolution_raises :
  (Samples.packages_old_a_ts
     ∈ DeadCodeDetector.walk Samples.repo (Fs.Dir [("packages-old",
          Fs.Dir [("a.ts", Samples.text "import { x } from '@/x';")])])
   ∧ "@/x" ∈ imports_of Samples.packages_old Samples.packages_old_a_ts
   ∧ resolve_import_path Samples.packages_old Samples.repo
       Samples.packages_old_a_ts "@/x"
     = Raise (ValueError "tuple.index(x): x not in tuple")
   ∧ (analyse Samples.packages_old Samples.repo).2
     = Raise (ValueError "tuple.index(x): x not in tuple"))
  ∧ ("../.." ∈ imports_of Samples.climbs_to_root Samples.a_ts
     ∧ resolve_import_path Samples.climbs_to_root Samples.repo Samples.a_ts "../.."
       = Raise (ValueError "candidate has an empty name")
     ∧ (analyse Samples.climbs_to_root Samples.repo).2
       = Raise (ValueError "candidate has an empty name")).
Proof.
  split; split_and!; try (vm_compute; reflexivity); compute_done.
Qed.

(* ===================================================================== *)
(** ** The scanner *)
(* ===================================================================== *)

#[local] Arguments mem : simpl never.
#[local] Arguments is_excluded_dir : simpl never.
#[local] Arguments included_here : simpl never.
#[local] Arguments Pathlib.joinpath : simpl never.
#[local] Arguments Pathlib.suffix : simpl never.
#[local] Arguments Pathlib.resolve : simpl never.
#[local] Arguments Pathlib.name : simpl never.
#[local] Arguments Pathlib.parent : simpl never.
#[local] Arguments Pathlib.to_str : simpl never.
#[local] Arguments Str.startswith : simpl never.

(** Induction on a tree, with the hypothesis for every entry of a
    directory. *)
Lemma node_nested_ind (P : Fs.node → Prop) :
  (∀ content, P (Fs.File content)) →
  (∀ es, Forall (λ e, P e.2) es → P (Fs.Dir es)) →
  ∀ n, P n.
Proof.
  intros Hfile Hdir. fix IH 1. intros [content|es].
  - apply Hfile.
  - apply Hdir. induction es as [|[name sub] es IHes]; constructor.
    + apply IH.
    + apply IHes.
Qed.

Lemma wf_node_Dir (es : list (string * Fs.node)) :
  wf_node (Fs.Dir es) = true →
  NoDup es.*1 ∧ Forall (λ e, wf_name e.1 = true ∧ wf_node e.2 = true) es.
Proof.
  simpl. rewrite !andb_true_iff, bool_decide_eq_true.
  intros [[Hnodup Hnames] Hsubs]. split; [done|].
  clear Hnodup. induction es as [|[name sub] es IH]; constructor; simpl in *.
  - apply andb_true_iff in Hnames as [? _], Hsubs as [? _]. done.
  - apply andb_true_iff in Hnames as [_ ?], Hsubs as [_ ?]. by apply IH.
Qed.

Section Names.

Lemma rev_app_rev_app (s t u : string) :
  String.rev_app (String.rev_app s t) u = String.rev_app t (s +:+ u).
Proof.
  revert t u. induction s as [|a s IH]; intros t u; simpl; [done|].
  by rewrite IH.
Qed.

Lemma string_rev_involutive (s : string) : String.rev (String.rev s) = s.
Proof.
  unfold String.rev. rewrite rev_app_rev_app. simpl.
  induction s as [|a s IH]; [done|].
  change (String a s +:+ "") with (String a (s +:+ "")). by f_equal.
Qed.

Lemma split_go_no_sep (sep : ascii) (s cur : string) :
  Str.contains sep s = false →
  Str.split_go sep cur s = [String.rev (String.rev_app s cur)].
Proof.
  revert cur. induction s as [|a s IH]; intros cur; simpl; [done|].
  destruct (Ascii.eqb a sep); [done|]. intros Hs. by rewrite IH.
Qed.

Lemma split_no_sep (sep : ascii) (s : string) :
  Str.contains sep s = false → Str.split sep s = [s].
Proof.
  intros Hs. unfold Str.split. rewrite split_go_no_sep by done.
  by rewrite <- (string_rev_involutive s) at 2.
Qed.

Context (name : string) (Hname : wf_name name = true).

Lemma wf_name_inv :
  name ≠ "" ∧ name ≠ "." ∧ name ≠ ".." ∧ Str.contains "/"%char name = false.
Proof.
  revert Hname. unfold wf_name.
  rewrite !andb_true_iff, !negb_true_iff, !String.eqb_neq. tauto.
Qed.

Lemma name_no_leading_slash : Str.startswith "/" name = false.
Proof.
  destruct wf_name_inv as (_ & _ & _ & Hslash).
  destruct name as [|a s]; [done|].
  change (Str.startswith "/" (String a s))
    with (if Ascii.eqb "/" a then Str.startswith "" s else false).
  destruct (Ascii.eqb_spec "/"%char a) as [<-|]; [|done].
  by simpl in Hslash.
Qed.

Lemma of_str_name : Pathlib.of_str name = [name].
Proof.
  destruct wf_name_inv as (Hne & Hdot & _ & Hslash).
  unfold Pathlib.of_str. rewrite split_no_sep, name_no_leading_slash by done.
  cbn [List.filter].
  apply String.eqb_neq in Hne, Hdot. by rewrite Hne, Hdot.
Qed.

Lemma name_not_anchor : Pathlib.is_anchor name = false.
Proof.
  destruct wf_name_inv as (_ & _ & _ & Hslash).
  unfold Pathlib.is_anchor.
  destruct (String.eqb_spec name "/") as [->|]; [done|].
  destruct (String.eqb_spec name "//") as [->|]; done.
Qed.

(** [path / name] appends the name. *)
Lemma joinpath_name (base : Path) : Pathlib.joinpath base name = base ++ [name].
Proof.
  unfold Pathlib.joinpath. rewrite of_str_name. simpl. by rewrite name_not_anchor.
Qed.

End Names.

(** A directory is excluded when one of its parts is an excluded name. *)
Lemma is_excluded_dir_true (path : Path) :
  is_excluded_dir path = true ↔ ∃ c, c ∈ path ∧ c ∈ exclude_dirs.
Proof.
  unfold is_excluded_dir, mem, Pathlib.parts. rewrite existsb_exists. split.
  - intros (x & Hx & (c & Hc & ->%String.eqb_eq)%existsb_exists).
    exists c. by rewrite !list_elem_of_In.
  - intros (c & Hc & Hx). exists c. rewrite <- list_elem_of_In. split; [done|].
    apply existsb_exists. exists c. rewrite <- list_elem_of_In.
    by rewrite String.eqb_refl.
Qed.

Lemma mem_true (x : string) (l : list string) : mem x l = true ↔ x ∈ l.
Proof.
  unfold mem. rewrite existsb_exists. split.
  - intros (y & Hy & ->%String.eqb_eq). by apply list_elem_of_In.
  - intros Hx. exists x. by rewrite <- list_elem_of_In, String.eqb_refl.
Qed.

Lemma is_excluded_dir_app (p q : Path) :
  is_excluded_dir (p ++ q) = is_excluded_dir p || is_excluded_dir q.
Proof.
  apply eq_true_iff_eq. rewrite orb_true_iff, !is_excluded_dir_true.
  setoid_rewrite elem_of_app. naive_solver.
Qed.

Lemma is_excluded_dir_singleton (d : string) :
  is_excluded_dir [d] = mem d exclude_dirs.
Proof.
  apply eq_true_iff_eq. rewrite is_excluded_dir_true, mem_true.
  setoid_rewrite list_elem_of_singleton. naive_solver.
Qed.

Lemma assoc_Some (es : list (string * Fs.node)) (d : string) (sub : Fs.node) :
  NoDup es.*1 → Fs.assoc d es = Some sub ↔ (d, sub) ∈ es.
Proof.
  induction es as [|[m x] es IH]; simpl.
  - intros _. split; [done|]. by intros ?%elem_of_nil.
  - intros [Hm Hnodup]%NoDup_cons. rewrite elem_of_cons.
    destruct (String.eqb_spec d m) as [->|Hne].
    + split; [intros [= ->]; by left|]. intros [[= ->]|Hin]; [done|].
      destruct Hm. apply list_elem_of_fmap. by exists (m, sub).
    + rewrite IH by done. naive_solver.
Qed.

Lemma elem_of_included_here (root_path f : Path) (e : string * Fs.node) :
  f ∈ included_here root_path e ↔
  ∃ content, e.2 = Fs.File content
             ∧ f = Pathlib.joinpath root_path e.1
             ∧ mem (Pathlib.suffix f) include_extensions = true.
Proof.
  destruct e as [file [content|es]]; unfold included_here; cbn [fst snd].
  - destruct (mem (Pathlib.suffix (Pathlib.joinpath root_path file))
                include_extensions) eqn:Hmem.
    + rewrite list_elem_of_singleton. split.
      * intros ->. eauto.
      * by intros (? & _ & -> & _).
    + split; [by intros ?%elem_of_nil|]. intros (? & _ & -> & ?). congruence.
  - split; [by intros ?%elem_of_nil|]. by intros (? & ? & _).
Qed.

(** One level of [os.walk]: the files of this directory, unless the
    directory is excluded, and what the walk finds in every subdirectory
    that is not pruned. *)
Lemma elem_of_walk_Dir (root_path f : Path) (es : list (string * Fs.node)) :
  f ∈ walk root_path (Fs.Dir es) ↔
  (is_excluded_dir root_path = false ∧ ∃ e, e ∈ es ∧ f ∈ included_here root_path e)
  ∨ (∃ d sub, (d, sub) ∈ es ∧ mem d exclude_dirs = false
              ∧ f ∈ walk (Pathlib.joinpath root_path d) sub).
Proof.
  simpl. rewrite elem_of_app.
  match goal with |- _ ∨ f ∈ ?F es ↔ _ =>
    assert (∀ es', f ∈ F es' ↔
              ∃ d sub, (d, sub) ∈ es' ∧ mem d exclude_dirs = false
                       ∧ f ∈ walk (Pathlib.joinpath root_path d) sub) as Hdescend
  end.
  { induction es' as [|[d sub] es' IH].
    - split; [by intros ?%elem_of_nil|]. by intros (? & ? & ?%elem_of_nil & _).
    - rewrite elem_of_app, IH. setoid_rewrite elem_of_cons.
      destruct (mem d exclude_dirs) eqn:Hd.
      + split.
        * intros [?%elem_of_nil|(d' & sub' & ? & ?)]; [done|]. eauto 10.
        * intros (d' & sub' & [[= -> ->]|?] & ? & ?); [congruence|]. eauto 10.
      + split.
        * intros [?|(d' & sub' & ? & ?)]; eauto 10.
        * intros (d' & sub' & [[= -> ->]|?] & ? & ?); eauto 10. }
  rewrite Hdescend. apply or_iff_compat_r.
  destruct (is_excluded_dir root_path).
  - split; [by intros ?%elem_of_nil|]. by intros [? _].
  - rewrite list_elem_of_In, in_flat_map. setoid_rewrite <- list_elem_of_In.
    naive_solver.
Qed.

Lemma removelast_cons_ne {A} (x : A) (l : list A) :
  l ≠ [] → removelast (x :: l) = x :: removelast l.
Proof. by destruct l. Qed.

(** What [os.walk] with the loop body of [scan_files] finds below a
    well-formed directory: the regular files with an included extension
    that are reached through directories none of which, up to the root's
    own parts, has an excluded name. *)
Lemma elem_of_walk (n : Fs.node) :
  wf_node n = true →
  ∀ (root_path f : Path),
    f ∈ walk root_path n ↔
    ∃ rel, f = root_path ++ rel ∧ rel ≠ [] ∧ file_below n rel
           ∧ mem (Pathlib.suffix f) include_extensions = true
           ∧ is_excluded_dir (root_path ++ removelast rel) = false.
Proof.
  induction n as [content|es IH] using node_nested_ind; intros Hwf root_path f.
  - simpl. split; [by intros ?%elem_of_nil|].
    intros (rel & _ & Hne & [c Hc] & _). by destruct rel.
  - apply wf_node_Dir in Hwf as [Hnodup Hwf]. rewrite elem_of_walk_Dir.
    rewrite Forall_forall in IH, Hwf. split.
    + intros [[Hroot (e & He & (content & Hfile & -> & Hsuffix)%elem_of_included_here)]
             |(d & sub & Hin & Hd & Hf)].
      * destruct e as [file x]; simpl in *; subst x.
        destruct (Hwf _ He) as [Hname _]; simpl in Hname.
        rewrite joinpath_name in * by done.
        exists [file]. split_and!; try done.
        -- exists content. simpl. by rewrite (proj2 (assoc_Some _ _ _ Hnodup) He).
        -- simpl. by rewrite app_nil_r.
      * destruct (Hwf _ Hin) as [Hname Hsub]; simpl in Hname, Hsub.
        rewrite joinpath_name in Hf by done.
        apply (IH _ Hin Hsub) in Hf as (rel & -> & Hne & [c Hc] & Hsuffix & Hexcl).
        exists (d :: rel). split_and!; try done.
        -- by rewrite <- app_assoc.
        -- exists c. simpl. by rewrite (proj2 (assoc_Some _ _ _ Hnodup) Hin).
        -- rewrite removelast_cons_ne by done.
           by rewrite <- app_assoc in Hexcl.
    + intros (rel & -> & Hne & [c Hc] & Hsuffix & Hexcl).
      destruct rel as [|d rel]; [done|]. simpl in Hc.
      destruct (Fs.assoc d es) as [sub|] eqn:Hassoc; [|done].
      apply (assoc_Some _ _ _ Hnodup) in Hassoc.
      destruct (Hwf _ Hassoc) as [Hname Hsub]; simpl in Hname, Hsub.
      destruct rel as [|d' rel].
      * simpl in Hc, Hexcl. injection Hc as ->. rewrite app_nil_r in Hexcl.
        left. split; [done|]. exists (d, Fs.File c). split; [done|].
        apply elem_of_included_here. exists c. simpl.
        by rewrite joinpath_name.
      * right. exists d, sub. rewrite removelast_cons_ne in Hexcl by done.
        rewrite is_excluded_dir_app in Hexcl.
        apply orb_false_iff in Hexcl as [Hroot Hrest].
        change (d :: removelast (d' :: rel)) with ([d] ++ removelast (d' :: rel)) in Hrest.
        rewrite is_excluded_dir_app, is_excluded_dir_singleton in Hrest.
        apply orb_false_iff in Hrest as [Hd Hrest].
        split_and!; [done|done|].
        rewrite joinpath_name by done. apply (IH _ Hassoc Hsub).
        exists (d' :: rel). split_and!; try done.
        -- by rewrite <- app_assoc.
        -- by exists c.
        -- rewrite !is_excluded_dir_app, is_excluded_dir_singleton, Hroot, Hd, Hrest.
           done.
Qed.

Lemma lookup_app (n : Fs.node) (a b : list string) :
  Fs.lookup n (a ++ b) = Fs.lookup n a ≫= λ m, Fs.lookup m b.
Proof.
  revert n. induction a as [|c a IH]; intros n; simpl; [done|].
  destruct n as [content|es]; [done|]. destruct (Fs.assoc c es); [|done]. apply IH.
Qed.

Lemma wf_node_lookup (n m : Fs.node) (a : list string) :
  wf_node n = true → Fs.lookup n a = Some m → wf_node m = true.
Proof.
  revert n. induction a as [|c a IH]; intros n Hwf; simpl.
  - by intros [= <-].
  - destruct n as [content|es]; [done|].
    apply wf_node_Dir in Hwf as [Hnodup Hwf].
    destruct (Fs.assoc c es) as [sub|] eqn:Hassoc; [|done].
    apply (assoc_Some _ _ _ Hnodup) in Hassoc.
    rewrite Forall_forall in Hwf. destruct (Hwf _ Hassoc) as [_ Hsub]. by apply IH.
Qed.

Lemma is_absolute_app (root rel : Path) :
  Pathlib.is_absolute root = true →
  Pathlib.is_absolute (root ++ rel) = true
  ∧ Pathlib.tail (root ++ rel) = Pathlib.tail root ++ rel.
Proof.
  destruct root as [|a root]; [done|]. unfold Pathlib.tail. simpl. by intros ->.
Qed.

Lemma parent_app (root rel : Path) :
  Pathlib.is_absolute root = true → rel ≠ [] →
  Pathlib.parent (root ++ rel) = root ++ removelast rel.
Proof.
  intros Habs Hne. unfold Pathlib.parent.
  destruct (is_absolute_app root rel Habs) as [_ ->].
  destruct (Pathlib.tail root ++ rel) eqn:Htail.
  - apply app_eq_nil in Htail as [_ ->]. done.
  - by apply removelast_app.
Qed.

(** What [scan_files] does to a fresh detector. *)
Lemma scan_files_init (env : Env) (root : Path) :
  scan_files env (init root)
  = ([PrintScanning root; PrintFound (size (scanned_files env root))],
     Ok (set_files (init root) (scanned_files env root))).
Proof.
  unfold scan_files, print, scanned_files. rewrite !bind_Ok. simpl.
  rewrite (left_id_L ∅ (∪)). by destruct (Fs.at_path (fs env) root).
Qed.

(** What the model of [scan_files] collects, for any root. *)
Lemma elem_of_scan_files (env : Env) (root : Path) (log : list Event)
    (st : Detector) (f : Path) :
  wf_node (fs env) = true →
  scan_files env (init root) = (log, Ok st) →
  f ∈ files st ↔
  Pathlib.is_absolute root = true
  ∧ ∃ rel, f = root ++ rel ∧ rel ≠ []
           ∧ Fs.is_file (fs env) f = true
           ∧ mem (Pathlib.suffix f) include_extensions = true
           ∧ is_excluded_dir (Pathlib.parent f) = false.
Proof.
  intros Hwf. rewrite scan_files_init. intros [= _ <-]. simpl.
  unfold scanned_files, Fs.at_path, Fs.is_file, Fs.at_path.
  destruct (Pathlib.is_absolute root) eqn:Habs.
  - destruct (Fs.lookup (fs env) (Pathlib.tail root)) as [n|] eqn:Hroot.
    + rewrite elem_of_list_to_set, (elem_of_walk n (wf_node_lookup _ _ _ Hwf Hroot)).
      split.
      * intros (rel & -> & Hne & [c Hc] & Hsuffix & Hexcl). split; [done|].
        exists rel. destruct (is_absolute_app root rel Habs) as [-> ->].
        rewrite lookup_app, Hroot, parent_app by done. simpl. by rewrite Hc.
      * intros (_ & rel & -> & Hne & Hfile & Hsuffix & Hexcl).
        exists rel. destruct (is_absolute_app root rel Habs) as [Habs' Htail].
        rewrite Habs', Htail, lookup_app, Hroot in Hfile. simpl in Hfile.
        rewrite parent_app in Hexcl by done. split_and!; try done.
        destruct (Fs.lookup n rel) as [[c|]|] eqn:Hc; try done. by exists c.
    + split; [by intros ?%not_elem_of_empty|].
      intros (_ & rel & -> & _ & Hfile & _).
      destruct (is_absolute_app root rel Habs) as [Habs' Htail].
      by rewrite Habs', Htail, lookup_app, Hroot in Hfile.
  - split; [by intros ?%not_elem_of_empty|]. by intros [? _].
Qed.

Lemma resolve_is_absolute (wd p : Path) :
  Pathlib.is_absolute (Pathlib.resolve wd p) = true.
Proof. done. Qed.

(** X1.  The contract of the scanner on a well-formed disk, for the root
    that [main] passes (the resolved [--root]): [scan_files] collects
    exactly the regular files below the root whose extension is one of the
    included ones and whose directory has no part, the parts of the root
    included, that is an excluded name. *)
Theorem scan_files_contract (env : Env) (root_arg : string) (log : list Event)
    (st : Detector) (f : Path) :
  let root := Pathlib.resolve (cwd env) (Pathlib.of_str root_arg) in
  wf_node (fs env) = true →
  scan_files env (init root) = (log, Ok st) →
  f ∈ files st ↔
  ∃ rel, f = root ++ rel ∧ rel ≠ []
         ∧ Fs.is_file (fs env) f = true
         ∧ mem (Pathlib.suffix f) include_extensions = true
         ∧ is_excluded_dir (Pathlib.parent f) = false.
Proof.
  intros root Hwf Hscan. rewrite (elem_of_scan_files _ _ _ _ f Hwf Hscan).
  pose proof (resolve_is_absolute (cwd env) (Pathlib.of_str root_arg)). tauto.
Qed.

(** In [with_excluded], scanned from its own directory, src/a.ts is
    collected; the text file, the build output and the dependency cache are
    not. *)
Lemma scan_files_contract_witness :
  Pathlib.resolve (cwd Cases.with_excluded) (Pathlib.of_str ".") = Samples.repo
  ∧ (Cases.src_a_ts ∈ files (Cases.scanned Cases.with_excluded Samples.repo) ↔
     ∃ rel, Cases.src_a_ts = Samples.repo ++ rel ∧ rel ≠ []
            ∧ Fs.is_file (fs Cases.with_excluded) Cases.src_a_ts = true
            ∧ mem (Pathlib.suffix Cases.src_a_ts) include_extensions = true
            ∧ is_excluded_dir (Pathlib.parent Cases.src_a_ts) = false)
  ∧ files (Cases.scanned Cases.with_excluded Samples.repo) = {[Cases.src_a_ts]}.
Proof.
  split_and!; [reflexivity| |compute_done].
  apply (scan_files_contract Cases.with_excluded "."
           (scan_files Cases.with_excluded (init Samples.repo)).1).
  - reflexivity.
  - vm_compute. reflexivity.
Defined.

Lemma relative_to_app (root rel : Path) :
  Pathlib.relative_to (root ++ rel) root = Some rel.
Proof.
  induction root as [|a root IH]; simpl; [by destruct rel|].
  by rewrite String.eqb_refl.
Qed.

(** X2.  Every scanned file lies below the root: [relative_to] succeeds on
    it, so [get_relative_path] returns the path relative to the root and
    never falls back to the absolute one. *)
Theorem scanned_file_below_root (env : Env) (root : Path) (log : list Event)
    (st : Detector) (f : Path) :
  wf_node (fs env) = true →
  scan_files env (init root) = (log, Ok st) →
  f ∈ files st →
  ∃ rel, rel ≠ [] ∧ f = root ++ rel
         ∧ Pathlib.relative_to f (root_dir st) = Some rel
         ∧ get_relative_path st f = Pathlib.to_str rel.
Proof.
  intros Hwf Hscan Hf.
  apply (elem_of_scan_files _ _ _ _ _ Hwf Hscan) in Hf as (_ & rel & -> & Hne & _).
  rewrite scan_files_init in Hscan. injection Hscan as _ <-.
  exists rel. unfold get_relative_path. simpl. by rewrite relative_to_app.
Qed.

Lemma scanned_file_below_root_witness :
  ∃ rel, rel ≠ [] ∧ Cases.src_a_ts = Samples.repo ++ rel
         ∧ Pathlib.relative_to Cases.src_a_ts
             (root_dir (Cases.scanned Cases.with_excluded Samples.repo)) = Some rel
         ∧ get_relative_path (Cases.scanned Cases.with_excluded Samples.repo)
             Cases.src_a_ts = Pathlib.to_str rel.
Proof.
  apply (scanned_file_below_root Cases.with_excluded Samples.repo
           (scan_files Cases.with_excluded (init Samples.repo)).1).
  - reflexivity.
  - vm_compute. reflexivity.
  - compute_done.
Defined.

(** X3.  When a part of the root's own path is an excluded name, the
    scanner finds nothing, whatever the tree holds. *)
Theorem excluded_root_scans_nothing (env : Env) (root : Path) (log : list Event)
    (st : Detector) :
  wf_node (fs env) = true →
  is_excluded_dir root = true →
  scan_files env (init root) = (log, Ok st) →
  files st = ∅.
Proof.
  intros Hwf Hexcl Hscan. apply set_eq. intros f.
  rewrite (elem_of_scan_files _ _ _ _ f Hwf Hscan). split; [|by intros ?%not_elem_of_empty].
  intros (Habs & rel & -> & Hne & _ & _ & Hparent).
  rewrite parent_app, is_excluded_dir_app, Hexcl in Hparent by done. done.
Qed.

Lemma excluded_root_scans_nothing_witness :
  Fs.is_file (fs Cases.under_build) (Cases.build_repo ++ ["a.ts"]) = true
  ∧ files (Cases.scanned Cases.under_build Cases.build_repo) = ∅.
Proof.
  split; [reflexivity|].
  apply (excluded_root_scans_nothing Cases.under_build Cases.build_repo
           (scan_files Cases.under_build (init Cases.build_repo)).1).
  - reflexivity.
  - reflexivity.
  - vm_compute. reflexivity.
Defined.

(* ===================================================================== *)
(** ** The resolver *)
(* ===================================================================== *)

Lemma try_suffixes_Some (env : Env) (candidate r : Path) (exts : list string) :
  try_suffixes env candidate exts = Ok (Some r) →
  Fs.exists_ (fs env) r = true
  ∧ ∃ ext, ext ∈ exts ∧ Pathlib.with_suffix candidate ext = Some r.
Proof.
  induction exts as [|ext exts IH]; simpl; [done|].
  destruct (Pathlib.with_suffix candidate ext) as [c|] eqn:Hc; [|done].
  destruct (Fs.exists_ (fs env) c) eqn:Hex.
  - intros [= <-]. split; [done|]. exists ext. split; [by left|done].
  - intros (? & ext' & ? & ?)%IH. split; [done|]. exists ext'. split; [by right|done].
Qed.

Lemma try_index_Some (env : Env) (candidate r : Path) (exts : list string) :
  try_index env candidate exts = Some r →
  Fs.exists_ (fs env) r = true
  ∧ ∃ ext, ext ∈ exts ∧ r = Pathlib.joinpath candidate ("index" +:+ ext).
Proof.
  induction exts as [|ext exts IH]; simpl; [done|].
  destruct (Fs.exists_ (fs env) (Pathlib.joinpath candidate ("index" +:+ ext))) eqn:Hex.
  - intros [= <-]. split; [done|]. exists ext. split; [by left|done].
  - intros (? & ext' & ? & ?)%IH. split; [done|]. exists ext'. split; [by right|done].
Qed.

Lemma try_candidates_Some (env : Env) (candidate r : Path) :
  try_candidates env candidate = Ok (Some r) →
  Fs.exists_ (fs env) r = true
  ∧ ((r = candidate ∧ Fs.is_file (fs env) candidate = true)
     ∨ (∃ ext, ext ∈ ext_order (seed env) ∧ Pathlib.with_suffix candidate ext = Some r)
     ∨ (Fs.is_dir (fs env) candidate = true
        ∧ ∃ ext, ext ∈ ext_order (seed env)
                 ∧ r = Pathlib.joinpath candidate ("index" +:+ ext))).
Proof.
  unfold try_candidates.
  destruct (Fs.exists_ (fs env) candidate && Fs.is_file (fs env) candidate) eqn:Hexact.
  - intros [= <-]. apply andb_true_iff in Hexact as [? ?]. eauto.
  - destruct (try_suffixes _ _ _) as [[found|]|e] eqn:Hsuf; [| |done].
    + intros [= <-]. apply try_suffixes_Some in Hsuf as [? ?]. eauto.
    + destruct (Fs.is_dir (fs env) candidate) eqn:Hdir; [|done].
      intros [= Hidx]. apply try_index_Some in Hidx as [? ?]. eauto 10.
Qed.

(** X4.  Whatever the resolver returns exists on disk, and it is one of the
    three candidates of the combined path, which is the resolved join of
    the base and the specifier: the base is the directory of the importing
    file, or for an alias import the directory [alias_base] chooses, the
    specifier then taken without its two-character prefix.  The result is
    the combined path itself when that is a regular file, the combined path
    with its suffix replaced by an included extension, or an index file
    inside the combined path when that is a directory. *)
Theorem resolved_path_exists (env : Env) (root from_file r : Path)
    (import_str : string) :
  resolve_import_path env root from_file import_str = Ok (Some r) →
  Fs.exists_ (fs env) r = true
  ∧ ∃ base rest candidate,
      (if Str.startswith "@/" import_str
       then alias_base env root from_file = Ok base ∧ rest = Str.drop 2 import_str
       else base = Pathlib.parent from_file ∧ rest = import_str)
      ∧ candidate = Pathlib.resolve (cwd env) (Pathlib.joinpath base rest)
      ∧ ((r = candidate ∧ Fs.is_file (fs env) candidate = true)
         ∨ (∃ ext, ext ∈ ext_order (seed env)
                   ∧ Pathlib.with_suffix candidate ext = Some r)
         ∨ (Fs.is_dir (fs env) candidate = true
            ∧ ∃ ext, ext ∈ ext_order (seed env)
                     ∧ r = Pathlib.joinpath candidate ("index" +:+ ext))).
Proof.
  unfold resolve_import_path.
  destruct (negb _ && negb _ && negb _); [done|].
  destruct (Str.startswith "@/" import_str).
  - destruct (alias_base env root from_file) as [base|e]; [|done].
    intros [? ?]%try_candidates_Some. split; [done|].
    eexists base, (Str.drop 2 import_str), _. split_and!; [done|done|reflexivity|done].
  - intros [? ?]%try_candidates_Some. split; [done|].
    eexists (Pathlib.parent from_file), import_str, _.
    split_and!; [done|done|reflexivity|done].
Qed.

(** In the monorepo, ./sub imported from packages/ui/src/a.ts is the index
    file of the directory packages/ui/src/sub. *)
Lemma resolved_path_exists_witness :
  Fs.exists_ (fs Samples.monorepo) (Samples.ui_src ++ ["sub"; "index.js"]) = true
  ∧ ∃ base rest candidate,
      (if Str.startswith "@/" "./sub"
       then alias_base Samples.monorepo Samples.repo (Samples.ui_src ++ ["a.ts"]) = Ok base
            ∧ rest = Str.drop 2 "./sub"
       else base = Pathlib.parent (Samples.ui_src ++ ["a.ts"]) ∧ rest = "./sub")
      ∧ candidate = Pathlib.resolve (cwd Samples.monorepo) (Pathlib.joinpath base rest)
      ∧ ((Samples.ui_src ++ ["sub"; "index.js"] = candidate
          ∧ Fs.is_file (fs Samples.monorepo) candidate = true)
         ∨ (∃ ext, ext ∈ ext_order (seed Samples.monorepo)
                   ∧ Pathlib.with_suffix candidate ext
                     = Some (Samples.ui_src ++ ["sub"; "index.js"]))
         ∨ (Fs.is_dir (fs Samples.monorepo) candidate = true
            ∧ ∃ ext, ext ∈ ext_order (seed Samples.monorepo)
                     ∧ Samples.ui_src ++ ["sub"; "index.js"]
                       = Pathlib.joinpath candidate ("index" +:+ ext))).
Proof.
  apply (resolved_path_exists Samples.monorepo Samples.repo
           (Samples.ui_src ++ ["a.ts"]) _ "./sub").
  vm_compute. reflexivity.
Defined.

Lemma with_suffix_None (p : Path) (ext : string) :
  Pathlib.with_suffix p ext = None ↔ Pathlib.name p = "".
Proof.
  unfold Pathlib.with_suffix.
  destruct (String.eqb_spec (Pathlib.name p) ""); split; done.
Qed.

Lemma try_suffixes_Raise (env : Env) (candidate : Path) (exts : list string) (e : Exn) :
  try_suffixes env candidate exts = Raise e ↔
  exts ≠ [] ∧ Pathlib.name candidate = ""
  ∧ e = ValueError "candidate has an empty name".
Proof.
  destruct (decide (Pathlib.name candidate = "")) as [Hname|Hname].
  - destruct exts as [|ext exts]; simpl; [naive_solver|].
    rewrite (proj2 (with_suffix_None candidate ext) Hname). naive_solver.
  - split; [|naive_solver]. induction exts as [|ext exts IH]; simpl; [done|].
    destruct (Pathlib.with_suffix candidate ext) as [c|] eqn:Hc.
    + destruct (Fs.exists_ (fs env) c); [done|]. intros ?%IH. naive_solver.
    + by apply with_suffix_None in Hc.
Qed.

Lemma is_file_exists (tree : Fs.node) (p : Path) :
  Fs.is_file tree p = true → Fs.exists_ tree p = true.
Proof. unfold Fs.is_file, Fs.exists_. by destruct (Fs.at_path tree p) as [[|]|]. Qed.

Lemma try_candidates_Raise (env : Env) (candidate : Path) (e : Exn) :
  try_candidates env candidate = Raise e ↔
  Fs.is_file (fs env) candidate = false ∧ ext_order (seed env) ≠ []
  ∧ Pathlib.name candidate = "" ∧ e = ValueError "candidate has an empty name".
Proof.
  unfold try_candidates.
  destruct (Fs.is_file (fs env) candidate) eqn:Hfile.
  - rewrite (is_file_exists _ _ Hfile). simpl. naive_solver.
  - rewrite andb_false_r.
    destruct (try_suffixes _ _ _) as [[found|]|e'] eqn:Hsuf.
    + split; [done|]. intros (_ & ? & ? & ?).
      assert (try_suffixes env candidate (ext_order (seed env)) = Raise e) as Hr
        by by apply try_suffixes_Raise.
      congruence.
    + split; [by destruct (Fs.is_dir (fs env) candidate)|]. intros (_ & ? & ? & ?).
      assert (try_suffixes env candidate (ext_order (seed env)) = Raise e) as Hr
        by by apply try_suffixes_Raise.
      congruence.
    + apply try_suffixes_Raise in Hsuf as (? & ? & ->). naive_solver.
Qed.

(** X5.  A specifier that starts with a dot or a slash, and not with the
    alias prefix, makes the resolver raise a ValueError when the combined
    path has an empty name (the import climbed to the root of the file
    system) and is not a regular file, and there is an extension to try. *)
Theorem climbing_specifier_raises (env : Env) (root from_file : Path)
    (import_str : string) :
  Str.startswith "@/" import_str = false →
  Str.startswith "." import_str || Str.startswith "/" import_str = true →
  Pathlib.name (Pathlib.resolve (cwd env)
                  (Pathlib.joinpath (Pathlib.parent from_file) import_str)) = "" →
  Fs.is_file (fs env) (Pathlib.resolve (cwd env)
                  (Pathlib.joinpath (Pathlib.parent from_file) import_str)) = false →
  ext_order (seed env) ≠ [] →
  ∃ msg, resolve_import_path env root from_file import_str = Raise (ValueError msg).
Proof.
  intros Halias Hrel Hname Hfile Hexts. eexists.
  unfold resolve_import_path. rewrite Halias. simpl. rewrite andb_true_r.
  apply orb_true_iff in Hrel.
  destruct (Str.startswith "." import_str), (Str.startswith "/" import_str); simpl;
    try (by destruct Hrel); by apply try_candidates_Raise.
Qed.

(** From /repo/a.ts, the specifier ../.. climbs to the root of the file
    system. *)
Lemma climbing_specifier_raises_witness :
  Pathlib.resolve (cwd Samples.climbs_to_root)
    (Pathlib.joinpath (Pathlib.parent Samples.a_ts) "../..") = ["/"]
  ∧ ∃ msg, resolve_import_path Samples.climbs_to_root Samples.repo Samples.a_ts "../.."
           = Raise (ValueError msg).
Proof.
  split; [reflexivity|].
  apply (climbing_specifier_raises Samples.climbs_to_root Samples.repo
           Samples.a_ts "../..").
  - reflexivity.
  - reflexivity.
  - reflexivity.
  - reflexivity.
  - vm_compute. discriminate.
Defined.



(* ===================================================================== *)
(** ** The dependency graph of a completed run *)
(* ===================================================================== *)

(** The edges of a completed run, from the invariant of the loops. *)
Lemma edge_spec (env : Env) (root : Path) (log : list Event) (st : Detector)
    (f r : Path) :
  seed_ok (seed env) →
  analyse env root = (log, Ok st) →
  edge st f r ↔
  f ∈ files st ∧ r ∈ files st
  ∧ ∃ import_str, import_str ∈ imports_of env f
                  ∧ resolve_import_path env root f import_str = Ok (Some r).
Proof.
  intros Hseed Hrun.
  destruct (analyse_unfold _ _ _ _ Hseed Hrun) as (_ & _ & _ & [_ _ _ _ Hedges] & Hdone).
  split.
  - intros Hedge. destruct (Hedges f r Hedge) as (? & ? & _ & ?). done.
  - intros (Hf & Hr & imp & Himp & Hres).
    destruct (Hdone f Hf) as (_ & _ & Hall). by apply (Hall imp).
Qed.

(** X7.  The edges of a completed run are exactly the pairs of scanned
    files such that some specifier extracted from the first resolves to the
    second. *)
Theorem edge_iff (env : Env) (root : Path) (log : list Event) (st : Detector)
    (f r : Path) :
  seed_ok (seed env) →
  analyse env root = (log, Ok st) →
  edge st f r ↔
  f ∈ files st ∧ r ∈ files st
  ∧ ∃ import_str, import_str ∈ imports_of env f
                  ∧ resolve_import_path env root f import_str = Ok (Some r).
Proof. apply edge_spec. Qed.

Lemma edge_iff_witness :
  let st := Samples.final (analyse Samples.three_files Samples.repo) in
  edge st Samples.a_ts Samples.b_ts ↔
  Samples.a_ts ∈ files st ∧ Samples.b_ts ∈ files st
  ∧ ∃ import_str, import_str ∈ imports_of Samples.three_files Samples.a_ts
                  ∧ resolve_import_path Samples.three_files Samples.repo
                      Samples.a_ts import_str = Ok (Some Samples.b_ts).
Proof.
  intros st.
  apply (edge_iff Samples.three_files Samples.repo
           (analyse Samples.three_files Samples.repo).1).
  - by apply seed_of_ok.
  - vm_compute. reflexivity.
Defined.

(** Only scanned files get an entry in [imports] and [exports]. *)
Lemma recorded_only_scanned (env : Env) (root : Path) (log : list Event)
    (st : Detector) (f : Path) :
  seed_ok (seed env) →
  analyse env root = (log, Ok st) →
  is_Some (imports st !! f) ∨ is_Some (exports st !! f) → f ∈ files st.
Proof.
  intros Hseed Hrun.
  destruct (analyse_unfold _ _ _ _ Hseed Hrun) as (l & Hloop & _ & _ & _).
  revert f.
  eapply (for_each_invariant _
            (λ s, files s = files st
                  ∧ ∀ f, is_Some (imports s !! f) ∨ is_Some (exports s !! f) → f ∈ files st))
    in Hloop as [_ H]; [exact H| |].
  - intros s x lx s' Hx [Hfiles Hdom] Hbody.
    destruct (process_file_effect _ Hseed _ _ _ _ Hbody) as (_ & Hf & Hi & He & _).
    split; [congruence|]. intros f. rewrite Hi, He, !lookup_insert_is_Some.
    rewrite (path_order_ok _ Hseed), elem_of_elements in Hx.
    naive_solver.
  - split; [done|]. simpl. intros f. rewrite lookup_empty.
    by intros [[? [=]]|[? [=]]].
Qed.

(** X8.  What a completed run has recorded: the entry of a scanned file in
    [imports] and in [exports] is what the extractor finds in that file,
    and no other path has an entry. *)
Theorem recorded_iff (env : Env) (root : Path) (log : list Event) (st : Detector)
    (f : Path) :
  seed_ok (seed env) →
  analyse env root = (log, Ok st) →
  imports st !! f = (if decide (f ∈ files st) then Some (imports_of env f) else None)
  ∧ exports st !! f = (if decide (f ∈ files st) then Some (exports_of env f) else None).
Proof.
  intros Hseed Hrun. case_decide as Hf.
  - destruct (analyse_unfold _ _ _ _ Hseed Hrun) as (_ & _ & _ & _ & Hdone).
    by destruct (Hdone f Hf) as (? & ? & _).
  - pose proof (recorded_only_scanned _ _ _ _ f Hseed Hrun) as Hdom.
    split; apply eq_None_not_Some; intros ?; apply Hf, Hdom; eauto.
Qed.

Lemma recorded_iff_witness :
  let st := Samples.final (analyse Samples.three_files Samples.repo) in
  imports st !! Samples.a_ts
  = (if decide (Samples.a_ts ∈ files st)
     then Some (imports_of Samples.three_files Samples.a_ts) else None)
  ∧ exports st !! Samples.a_ts
    = (if decide (Samples.a_ts ∈ files st)
       then Some (exports_of Samples.three_files Samples.a_ts) else None).
Proof.
  intros st.
  apply (recorded_iff Samples.three_files Samples.repo
           (analyse Samples.three_files Samples.repo).1).
  - by apply seed_of_ok.
  - vm_compute. reflexivity.
Defined.

(** A loop whose state keeps [I] returns exactly when every element meets
    the condition under which its pass returns. *)
Lemma for_each_returns_iff {A S} (body : S → A → M S) (I : S → Prop) (C : A → Prop) :
  (∀ st x, I st → (∃ l st', body st x = (l, Ok st')) ↔ C x) →
  (∀ st x l st', I st → body st x = (l, Ok st') → I st') →
  ∀ xs st, I st →
    (∃ l st', for_each xs body st = (l, Ok st')) ↔ ∀ x, x ∈ xs → C x.
Proof.
  intros Hbody Hkeep. induction xs as [|x xs IH]; intros st HI; simpl.
  - split; [by intros _ ? ?%elem_of_nil|]. intros _. by eexists _, _.
  - split.
    + intros (l & st' & (l1 & st1 & l2 & Hone & Hrest & _)%bind_inv_Ok).
      intros y [->|Hy]%elem_of_cons.
      * apply (Hbody st); [done|]. eauto.
      * eapply (IH st1); [by eapply Hkeep|eauto|done].
    + intros Hall.
      destruct (proj2 (Hbody st x HI)) as (l1 & st1 & Hone); [apply Hall; by left|].
      destruct (proj2 (IH st1 (Hkeep _ _ _ _ HI Hone))) as (l2 & st' & Hrest).
      { intros y Hy. apply Hall. by right. }
      exists (l1 ++ l2), st'. rewrite Hone, bind_Ok, Hrest. done.
Qed.

Lemma resolve_one_returns_iff (env : Env) (file_path : Path) (st : Detector)
    (import_str : string) :
  (∃ l st', resolve_one env file_path st import_str = (l, Ok st')) ↔
  ∃ r, resolve_import_path env (root_dir st) file_path import_str = Ok r.
Proof.
  unfold resolve_one, lift.
  destruct (resolve_import_path env (root_dir st) file_path import_str)
    as [[r|]|e]; rewrite ?bind_Ok, ?bind_Raise; simpl.
  - case_decide; split; eauto.
  - split; eauto.
  - split; [by intros (? & ? & ?)|by intros [? ?]].
Qed.

Lemma process_file_returns_iff (env : Env) (st : Detector) (file_path : Path) :
  seed_ok (seed env) →
  (∃ l st', process_file env st file_path = (l, Ok st')) ↔
  ∀ import_str, import_str ∈ imports_of env file_path →
    ∃ r, resolve_import_path env (root_dir st) file_path import_str = Ok r.
Proof.
  intros Hseed. unfold process_file.
  destruct (parse_imports_returns env file_path) as [li ->].
  destruct (parse_exports_returns env file_path) as [le ->].
  rewrite !bind_Ok; simpl.
  set (st1 := set_parsed st file_path _ _).
  assert (∀ s x, root_dir s = root_dir st →
            (∃ l s', resolve_one env file_path s x = (l, Ok s')) ↔
            ∃ r, resolve_import_path env (root_dir st) file_path x = Ok r) as Hbody.
  { intros s x <-. apply resolve_one_returns_iff. }
  assert (∀ s x l s', root_dir s = root_dir st →
            resolve_one env file_path s x = (l, Ok s') →
            root_dir s' = root_dir st) as Hkeep.
  { intros s x l s' Hs (Hr & _)%resolve_one_effect. congruence. }
  pose proof (for_each_returns_iff (resolve_one env file_path) _ _ Hbody Hkeep
                (str_order (seed env) (imports_of env file_path)) st1 eq_refl) as Hloop.
  assert (∀ imp, imp ∈ str_order (seed env) (imports_of env file_path)
                 ↔ imp ∈ imports_of env file_path) as Horder.
  { intros imp. by rewrite (str_order_ok _ Hseed), elem_of_elements. }
  setoid_rewrite Horder in Hloop. rewrite <- Hloop. split.
  - intros (l & st' & Heq).
    destruct (for_each _ _ st1) as [l' [st''|e]]; [eauto|done].
  - intros (l & st' & ->). simpl. eauto.
Qed.

(** X9.  A run completes exactly when no specifier extracted from a scanned
    file makes the resolver raise; otherwise the exception ends the run. *)
Theorem analyse_returns_iff (env : Env) (root : Path) :
  seed_ok (seed env) →
  (∃ log st, analyse env root = (log, Ok st)) ↔
  ∀ f import_str,
    f ∈ scanned_files env root → import_str ∈ imports_of env f →
    ∃ r, resolve_import_path env root f import_str = Ok r.
Proof.
  intros Hseed. unfold analyse. rewrite scan_files_init, bind_Ok. simpl.
  unfold build_dependency_graph, print. rewrite bind_Ok. simpl.
  set (st0 := set_files (init root) (scanned_files env root)).
  assert (∀ s x, root_dir s = root →
            (∃ l s', process_file env s x = (l, Ok s')) ↔
            ∀ imp, imp ∈ imports_of env x →
              ∃ r, resolve_import_path env root x imp = Ok r) as Hbody.
  { intros s x <-. by apply process_file_returns_iff. }
  assert (∀ s x l s', root_dir s = root →
            process_file env s x = (l, Ok s') → root_dir s' = root) as Hkeep.
  { intros s x l s' Hs (Hr & _)%(process_file_effect _ Hseed). congruence. }
  pose proof (for_each_returns_iff (process_file env) _ _ Hbody Hkeep
                (path_order (seed env) (scanned_files env root)) st0 eq_refl) as Hloop.
  assert (∀ f, f ∈ path_order (seed env) (scanned_files env root)
               ↔ f ∈ scanned_files env root) as Horder.
  { intros f. by rewrite (path_order_ok _ Hseed), elem_of_elements. }
  setoid_rewrite Horder in Hloop.
  transitivity (∃ l st', for_each (path_order (seed env) (scanned_files env root))
                           (process_file env) st0 = (l, Ok st')).
  - split.
    + intros (l & st' & Heq).
      destruct (for_each _ _ st0) as [l' [st''|e]]; [eauto|done].
    + intros (l & st' & ->). simpl. eauto.
  - rewrite Hloop. naive_solver.
Qed.

Lemma analyse_returns_iff_witness :
  (∃ log st, analyse Samples.packages_old Samples.repo = (log, Ok st)) ↔
  ∀ f import_str,
    f ∈ scanned_files Samples.packages_old Samples.repo →
    import_str ∈ imports_of Samples.packages_old f →
    ∃ r, resolve_import_path Samples.packages_old Samples.repo f import_str = Ok r.
Proof.
  apply (analyse_returns_iff Samples.packages_old Samples.repo).
  by apply seed_of_ok.
Defined.

(* ===================================================================== *)
(** ** The classification of a completed run *)
(* ===================================================================== *)

(** X10.  In a completed run a file is unused exactly when it is scanned,
    is not an entry point, and no specifier of any scanned file (itself
    included) resolves to it. *)
Theorem unused_iff (env : Env) (root : Path) (log : list Event) (st : Detector)
    (f : Path) :
  seed_ok (seed env) →
  analyse env root = (log, Ok st) →
  f ∈ find_unused_files st ↔
  f ∈ files st ∧ is_entry_point f = false
  ∧ ∀ g import_str, g ∈ files st → import_str ∈ imports_of env g →
      resolve_import_path env root g import_str ≠ Ok (Some f).
Proof.
  intros Hseed Hrun.
  rewrite elem_of_find_unused_files, elem_of_imported_files.
  split.
  - intros (Hf & Hnot & Hentry). split_and!; try done.
    intros g imp Hg Himp Hres. apply Hnot. exists g.
    apply (edge_spec _ _ _ _ _ _ Hseed Hrun). eauto.
  - intros (Hf & Hentry & Hnone). split_and!; try done.
    intros [g (Hg & _ & imp & Himp & Hres)%(edge_spec _ _ _ _ _ _ Hseed Hrun)].
    by apply (Hnone g imp).
Qed.

Lemma unused_iff_witness :
  let st := Samples.final (analyse Samples.three_files Samples.repo) in
  Samples.b_ts ∈ find_unused_files st ↔
  Samples.b_ts ∈ files st ∧ is_entry_point Samples.b_ts = false
  ∧ ∀ g import_str, g ∈ files st → import_str ∈ imports_of Samples.three_files g →
      resolve_import_path Samples.three_files Samples.repo g import_str
      ≠ Ok (Some Samples.b_ts).
Proof.
  intros st.
  apply (unused_iff Samples.three_files Samples.repo
           (analyse Samples.three_files Samples.repo).1).
  - by apply seed_of_ok.
  - vm_compute. reflexivity.
Defined.

(** X11.  In a completed run the orphaned and the export-less files are
    told from what the extractor finds in them: a file is orphaned when it
    is scanned, is not an entry point, and has neither specifier nor export;
    it is export-less when it is scanned, is not an entry point, has a
    specifier and no export. *)
Theorem orphaned_no_exports_iff (env : Env) (root : Path) (log : list Event)
    (st : Detector) (f : Path) :
  seed_ok (seed env) →
  analyse env root = (log, Ok st) →
  (f ∈ find_orphaned_files st ↔
   f ∈ files st ∧ is_entry_point f = false
   ∧ imports_of env f = ∅ ∧ exports_of env f = ∅)
  ∧ (f ∈ find_files_with_no_exports st ↔
     f ∈ files st ∧ is_entry_point f = false
     ∧ imports_of env f ≠ ∅ ∧ exports_of env f = ∅).
Proof.
  intros Hseed Hrun.
  rewrite elem_of_find_orphaned_files, elem_of_find_files_with_no_exports.
  split; (split; intros (Hf & H);
    destruct (recorded _ _ _ _ f Hseed Hrun Hf) as [Hi He];
    rewrite ?Hi, ?He in *; tauto).
Qed.

Lemma orphaned_no_exports_iff_witness :
  let st := Samples.final (analyse Samples.three_files Samples.repo) in
  (Samples.c_ts ∈ find_orphaned_files st ↔
   Samples.c_ts ∈ files st ∧ is_entry_point Samples.c_ts = false
   ∧ imports_of Samples.three_files Samples.c_ts = ∅
   ∧ exports_of Samples.three_files Samples.c_ts = ∅)
  ∧ (Samples.c_ts ∈ find_files_with_no_exports st ↔
     Samples.c_ts ∈ files st ∧ is_entry_point Samples.c_ts = false
     ∧ imports_of Samples.three_files Samples.c_ts ≠ ∅
     ∧ exports_of Samples.three_files Samples.c_ts = ∅).
Proof.
  intros st.
  apply (orphaned_no_exports_iff Samples.three_files Samples.repo
           (analyse Samples.three_files Samples.repo).1).
  - by apply seed_of_ok.
  - vm_compute. reflexivity.
Defined.

Lemma result_sets_subseteq (st : Detector) :
  find_unused_files st ⊆ files st
  ∧ find_orphaned_files st ⊆ files st
  ∧ find_files_with_no_exports st ⊆ files st
  ∧ find_orphaned_files st ∪ find_files_with_no_exports st ⊆ files st
  ∧ find_orphaned_files st ## find_files_with_no_exports st.
Proof.
  split_and!.
  - intros f. rewrite elem_of_find_unused_files. tauto.
  - intros f. rewrite elem_of_find_orphaned_files. tauto.
  - intros f. rewrite elem_of_find_files_with_no_exports. tauto.
  - intros f. rewrite elem_of_union, elem_of_find_orphaned_files,
      elem_of_find_files_with_no_exports. tauto.
  - intros f. rewrite elem_of_find_orphaned_files,
      elem_of_find_files_with_no_exports. tauto.
Qed.

(** X12.  The counts of a report are bounded by the number of scanned
    files: no more unused files than files, and the orphaned and the
    export-less files together no more than files. *)
Theorem summary_bounds (env : Env) (st : Detector) :
  let s := summary (generate_report env st) in
  total_files s = size (files st)
  ∧ (unused_files s ≤ total_files s)%nat
  ∧ (orphaned_files s + files_with_no_exports s ≤ total_files s)%nat.
Proof.
  destruct (result_sets_subseteq st) as (Hu & _ & _ & Hon & Hdisj).
  simpl. split_and!; [done|by apply subseteq_size|].
  rewrite <- size_union by done. by apply subseteq_size.
Qed.

(* ===================================================================== *)
(** ** The exit status *)
(* ===================================================================== *)

(** X13.  The script exits with 0 exactly when the root exists, the run
    completes, and both the unused and the orphaned set are empty; the
    flags [--json] and [--detailed] and the export-less set play no part. *)
Theorem exit_zero_iff (env : Env) (args : Args) :
  let root_dir := Pathlib.resolve (cwd env) (Pathlib.of_str (root args)) in
  exit_status (main env args) = 0%Z ↔
  Fs.exists_ (fs env) root_dir = true
  ∧ ∃ log st, analyse env root_dir = (log, Ok st)
              ∧ find_unused_files st = ∅ ∧ find_orphaned_files st = ∅.
Proof.
  intros root_dir. unfold main. fold root_dir.
  destruct (Fs.exists_ (fs env) root_dir); simpl.
  - destruct (analyse env root_dir) as [log [st|e]] eqn:Hrun.
    + rewrite bind_Ok. simpl.
      destruct (Nat.ltb_spec 0 (size (find_unused_files st))) as [Hu|Hu]; simpl.
      * split; [done|]. intros (_ & ? & ? & [= _ <-] & Hempty & _).
        rewrite Hempty, size_empty in Hu. lia.
      * destruct (Nat.ltb_spec 0 (size (find_orphaned_files st))) as [Ho|Ho]; simpl.
        -- split; [done|]. intros (_ & ? & ? & [= _ <-] & _ & Hempty).
           rewrite Hempty, size_empty in Ho. lia.
        -- split; [|done]. intros _. split; [done|]. exists log, st.
           split_and!; [done| |]; apply leibniz_equiv, size_empty_iff; lia.
    + rewrite bind_Raise. simpl. split; [done|]. by intros (_ & ? & ? & ? & _).
  - split; [done|]. by intros [? _].
Qed.

Lemma analyse_empty (env : Env) (root : Path) :
  seed_ok (seed env) →
  scanned_files env root = ∅ →
  analyse env root
  = ([PrintScanning root; PrintFound 0; PrintBuilding], Ok (set_files (init root) ∅)).
Proof.
  intros Hseed Hempty. unfold analyse. rewrite scan_files_init, Hempty, bind_Ok.
  unfold build_dependency_graph, print. rewrite bind_Ok.
  change (files (set_files (init root) ∅)) with (∅ : gset Path).
  pose proof (path_order_ok _ Hseed ∅) as Hperm.
  rewrite elements_empty in Hperm. apply Permutation_nil_r in Hperm.
  rewrite Hperm, size_empty. reflexivity.
Qed.

(** X14.  When the scanner finds nothing below an existing root (the root
    is a regular file, holds no source file, or lies below an excluded
    directory), the script prints a report whose four counts are 0 and
    exits with 0. *)
Theorem empty_scan_exits_zero (env : Env) (args : Args) :
  let root_dir := Pathlib.resolve (cwd env) (Pathlib.of_str (root args)) in
  seed_ok (seed env) →
  Fs.exists_ (fs env) root_dir = true →
  scanned_files env root_dir = ∅ →
  ∃ report,
    main env args
    = ([PrintScanning root_dir; PrintFound 0; PrintBuilding;
        PrintReport (json args) (detailed args) report], Ok 0%Z)
    ∧ summary report
      = {| total_files := 0; unused_files := 0; orphaned_files := 0;
           files_with_no_exports := 0 |}.
Proof.
  intros root_dir Hseed Hex Hempty. unfold main. fold root_dir. rewrite Hex.
  cbn [negb]. rewrite (analyse_empty _ _ Hseed Hempty), bind_Ok.
  set (st := set_files (init root_dir) ∅).
  assert (find_unused_files st = ∅ ∧ find_orphaned_files st = ∅
          ∧ find_files_with_no_exports st = ∅) as (Hu & Ho & Hn).
  { split_and!; apply set_eq; intros f;
      rewrite ?elem_of_find_unused_files, ?elem_of_find_orphaned_files,
        ?elem_of_find_files_with_no_exports;
      (split; [intros (Hf & _); by apply not_elem_of_empty in Hf
              |by intros ?%not_elem_of_empty]). }
  assert (summary (generate_report env st)
          = {| total_files := 0; unused_files := 0; orphaned_files := 0;
               files_with_no_exports := 0 |}) as Hsummary.
  { unfold generate_report. cbn [summary]. rewrite Hu, Ho, Hn.
    subst st. cbn [files set_files]. by rewrite size_empty. }
  exists (generate_report env st). split; [|done].
  cbn zeta. unfold print. rewrite bind_Ok, Hsummary. reflexivity.
Qed.

Lemma empty_scan_exits_zero_witness :
  ∃ report,
    main Cases.under_build Samples.no_args
    = ([PrintScanning Cases.build_repo; PrintFound 0; PrintBuilding;
        PrintReport false false report], Ok 0%Z)
    ∧ summary report
      = {| total_files := 0; unused_files := 0; orphaned_files := 0;
           files_with_no_exports := 0 |}.
Proof.
  apply (empty_scan_exits_zero Cases.under_build Samples.no_args).
  - by apply seed_of_ok.
  - reflexivity.
  - compute_done.
Defined.

(** X15.  When a part of the root's own path is [convex], every scanned
    file counts as an entry point, so every completed run is clean: the
    three result sets are empty. *)
Theorem convex_root_reports_nothing (env : Env) (root : Path) (log : list Event)
    (st : Detector) :
  wf_node (fs env) = true →
  seed_ok (seed env) →
  "convex" ∈ root →
  analyse env root = (log, Ok st) →
  find_unused_files st = ∅ ∧ find_orphaned_files st = ∅
  ∧ find_files_with_no_exports st = ∅.
Proof.
  intros Hwf Hseed Hconvex Hrun.
  assert (∀ f, f ∈ files st → is_entry_point f = true) as Hentry.
  { intros f Hf. rewrite (analyse_files _ _ _ _ Hseed Hrun) in Hf.
    assert (f ∈ files (set_files (init root) (scanned_files env root))) as Hf' by done.
    apply (elem_of_scan_files env root _ _ f Hwf (scan_files_init env root)) in Hf'
      as (_ & rel & -> & _).
    unfold is_entry_point.
    assert (mem "convex" (Pathlib.parts (root ++ rel)) = true) as ->.
    { apply mem_true. unfold Pathlib.parts. apply elem_of_app. by left. }
    by rewrite !orb_true_r. }
  split_and!; apply set_eq; intros f;
    rewrite ?elem_of_find_unused_files, ?elem_of_find_orphaned_files,
      ?elem_of_find_files_with_no_exports;
    (split; [|by intros ?%not_elem_of_empty]);
    intros (Hf & H); apply Hentry in Hf; destruct_and?; congruence.
Qed.

Lemma convex_root_reports_nothing_witness :
  let st := Samples.final (analyse Cases.under_convex Cases.convex_repo) in
  files st = {[Cases.convex_repo ++ ["a.ts"]; Cases.convex_repo ++ ["b.ts"]]}
  ∧ find_unused_files st = ∅ ∧ find_orphaned_files st = ∅
  ∧ find_files_with_no_exports st = ∅.
Proof.
  intros st. split; [compute_done|].
  apply (convex_root_reports_nothing Cases.under_convex Cases.convex_repo
           (analyse Cases.under_convex Cases.convex_repo).1).
  - reflexivity.
  - by apply seed_of_ok.
  - compute_done.
  - vm_compute. reflexivity.
Defined.

(* ===================================================================== *)
(** ** The grouped report *)
(* ===================================================================== *)

Section Categories.

Context (st : Detector).

(** the loop body of [categorize_files] *)
Let file_under (categories : gmap string (list Path)) (file : Path) :=
  <[category st file := default [] (categories !! category st file) ++ [file]]>
    categories.

(** After the loop over [l], a category holds the paths of [l] that belong
    to it, in the order of [l], and is absent when there is none. *)
Lemma categorize_lookup (l : list Path) (c : string) :
  foldl file_under ∅ l !! c
  = match filter (λ f, category st f = c) l with
    | [] => None
    | fl => Some fl
    end.
Proof.
  induction l as [|x l IH] using rev_ind; [done|].
  rewrite foldl_app, filter_app. simpl. unfold file_under at 1.
  destruct (decide (category st x = c)) as [<-|Hne].
  - rewrite lookup_insert_eq, IH, filter_cons_True, filter_nil by done.
    destruct (filter _ l) as [|y fl]; [done|]. simpl. by destruct (fl ++ [x]).
  - rewrite lookup_insert_ne, IH, filter_cons_False, filter_nil, app_nil_r by done.
    done.
Qed.

Lemma listed_insert (groups : gmap string (list Path)) (c : string) (l : list Path) :
  listed (<[c := l]> groups) + length (default [] (groups !! c))
  = listed groups + length l.
Proof.
  unfold listed.
  assert (∀ (m : gmap string (list Path)) k, m !! c = None →
            map_fold (λ _ (l : list Path) n, length l + n) 0 (<[c := k]> m)
            = length k + map_fold (λ _ (l : list Path) n, length l + n) 0 m) as Hnew.
  { intros m k Hm. apply (map_fold_insert_L (λ _ (l : list Path) n, length l + n));
      [intros; lia|done]. }
  destruct (groups !! c) as [k|] eqn:Hc; simpl.
  - rewrite <- (insert_delete_id groups c k) at 2 by done.
    rewrite <- insert_delete_eq, !Hnew by apply lookup_delete_eq. lia.
  - rewrite Hnew by done. lia.
Qed.

Lemma listed_foldl (l : list Path) : listed (foldl file_under ∅ l) = length l.
Proof.
  induction l as [|x l IH] using rev_ind; [done|].
  rewrite foldl_app, length_app. simpl. unfold file_under at 1.
  pose proof (listed_insert (foldl file_under ∅ l) (category st x)
                (default [] (foldl file_under ∅ l !! category st x) ++ [x])) as H.
  rewrite length_app in H. simpl in H. lia.
Qed.

Context (env : Env) (Hseed : seed_ok (seed env)).

(** X16.  [categorize_files] splits a set into its categories: a category
    is present only with at least one path; its paths are distinct, belong
    to the set and to that category; and every path of the set is listed
    under its own category. *)
Theorem categorize_files_partition (fls : gset Path) :
  (∀ c l, categorize_files env st fls !! c = Some l →
     l ≠ [] ∧ NoDup l ∧ ∀ f, f ∈ l ↔ f ∈ fls ∧ category st f = c)
  ∧ (∀ f, f ∈ fls →
       ∃ l, categorize_files env st fls !! category st f = Some l ∧ f ∈ l).
Proof.
  pose proof (path_order_ok _ Hseed fls) as Hperm.
  assert (∀ f, f ∈ path_order (seed env) fls ↔ f ∈ fls) as Horder.
  { intros f. by rewrite Hperm, elem_of_elements. }
  assert (NoDup (path_order (seed env) fls)) as Hnodup.
  { rewrite Hperm. apply NoDup_elements. }
  assert (∀ c, categorize_files env st fls !! c
               = match filter (λ f, category st f = c) (path_order (seed env) fls) with
                 | [] => None
                 | fl => Some fl
                 end) as Hlookup.
  { intros c. apply categorize_lookup. }
  split.
  - intros c l. rewrite Hlookup.
    destruct (filter _ _) as [|y fl] eqn:Hfilter; [done|]. intros [= <-].
    split_and!; [done|rewrite <- Hfilter; by apply NoDup_filter|].
    intros f. rewrite <- Hfilter, list_elem_of_filter, Horder. tauto.
  - intros f Hf. rewrite Hlookup.
    assert (f ∈ filter (λ g, category st g = category st f) (path_order (seed env) fls))
      as Hin by (apply list_elem_of_filter; by rewrite Horder).
    destruct (filter _ _) as [|y fl]; [by apply elem_of_nil in Hin|]. eauto.
Qed.

(** X17.  The grouped lists of a report add up to its counts: the paths
    listed under unused, orphaned and export-less files, all categories
    together, are as many as the summary says. *)
Theorem report_lists_match_counts :
  let report := generate_report env st in
  listed (report_unused_files report) = unused_files (summary report)
  ∧ listed (report_orphaned_files report) = orphaned_files (summary report)
  ∧ listed (report_files_with_no_exports report)
    = files_with_no_exports (summary report).
Proof.
  assert (∀ fls, listed (categorize_files env st fls) = size fls) as Hcount.
  { intros fls. unfold categorize_files.
    change (listed (foldl file_under ∅ (path_order (seed env) fls)) = size fls).
    rewrite listed_foldl, (path_order_ok _ Hseed fls). done. }
  simpl. by rewrite !Hcount.
Qed.

End Categories.

(* ===================================================================== *)
(** ** The extractor *)
(* ===================================================================== *)

Section Matcher.

Import Re.

Lemma star_inv (p : ascii → bool) (t : list ascii) (g : option string) (k : cont)
    (res : list ascii * option string) :
  star p t g k = Some res →
  ∃ pre t', t = pre ++ t' ∧ Forall (λ c, p c = true) pre ∧ k t' g = Some res.
Proof.
  induction t as [|c t IH]; simpl.
  - intros Hk. by exists [], [].
  - destruct (p c) eqn:Hc; [|intros Hk; by exists [], (c :: t)].
    destruct (star p t g k) as [r|] eqn:Hstar.
    + intros [= <-]. destruct (IH eq_refl) as (pre & t' & -> & Hpre & Hk).
      exists (c :: pre), t'. split_and!; [done|by constructor|done].
    + intros Hk. by exists [], (c :: t).
Qed.

Lemma lazystar_inv (p : ascii → bool) (t : list ascii) (g : option string) (k : cont)
    (res : list ascii * option string) :
  lazystar p t g k = Some res → ∃ t', k t' g = Some res.
Proof.
  induction t as [|c t IH]; simpl.
  - destruct (k [] g) eqn:Hk; [|done]. intros [= <-]. eauto.
  - destruct (k (c :: t) g) eqn:Hk; [intros [= <-]; eauto|].
    destruct (p c); [apply IH|done].
Qed.

Lemma passes_Lit (s : string) : passes (Lit s).
Proof. intros t g k res. simpl. destruct (lit s t); [eauto|done]. Qed.

Lemma passes_Cls (p : ascii → bool) : passes (Cls p).
Proof. intros [|c t] g k res; simpl; [done|]. destruct (p c); [eauto|done]. Qed.

Lemma passes_Star (p : ascii → bool) : passes (Star p).
Proof. intros t g k res (? & ? & _ & _ & ?)%star_inv. eauto. Qed.

Lemma passes_Plus (p : ascii → bool) : passes (Plus p).
Proof.
  intros [|c t] g k res; simpl; [done|].
  destruct (p c); [|done]. intros (? & ? & _ & _ & ?)%star_inv. eauto.
Qed.

Lemma passes_LazyStar (p : ascii → bool) : passes (LazyStar p).
Proof. intros t g k res. apply lazystar_inv. Qed.

Lemma passes_Seq (r1 r2 : regex) : passes r1 → passes r2 → passes (Seq r1 r2).
Proof.
  intros H1 H2 t g k res. simpl. intros (t1 & Hk)%H1. by apply H2 in Hk.
Qed.

Lemma captures_passes (r1 r2 : regex) (Q : string → Prop) :
  captures r1 Q → passes r2 → captures (Seq r1 r2) Q.
Proof.
  intros H1 H2 t g k res. simpl. intros (t1 & s & HQ & Hk)%H1.
  apply H2 in Hk as [t2 Hk]. eauto.
Qed.

Lemma passes_captures (r1 r2 : regex) (Q : string → Prop) :
  passes r1 → captures r2 Q → captures (Seq r1 r2) Q.
Proof.
  intros H1 H2 t g k res. simpl. intros (t1 & Hk)%H1. by apply H2 in Hk.
Qed.

Lemma consumed_app (pre t' : list ascii) :
  consumed (pre ++ t') t' = string_of_list_ascii pre.
Proof.
  unfold consumed. rewrite length_app.
  replace (length pre + length t' - length t') with (length pre) by lia.
  by rewrite take_app_length.
Qed.

(** A group around [p+] captures a non-empty run of [p]. *)
Lemma captures_Group_Plus (p : ascii → bool) :
  captures (Group (Plus p))
    (λ s, s ≠ "" ∧ ∀ c, c ∈ list_ascii_of_string s → p c = true).
Proof.
  intros [|c t] g k res; simpl; [done|].
  destruct (p c) eqn:Hc; [|done].
  intros (pre & t' & -> & Hpre & Hk)%star_inv.
  change (c :: pre ++ t') with ((c :: pre) ++ t') in Hk.
  rewrite consumed_app in Hk. exists t', (string_of_list_ascii (c :: pre)).
  split; [|done]. split; [done|].
  rewrite list_ascii_of_string_of_list_ascii. intros c' [->|Hin]%elem_of_cons; [done|].
  rewrite Forall_forall in Hpre. by apply Hpre.
Qed.

Lemma captures_quoted_spec : captures DeadCodeDetector.quoted_spec unquoted.
Proof.
  apply passes_captures; [apply passes_Cls|].
  apply captures_passes; [|apply passes_Cls].
  intros t g k res (t' & s & [Hne Hall] & Hk)%captures_Group_Plus.
  exists t', s. split; [|done]. split; [done|].
  intros c Hc. apply Hall in Hc. unfold not_quote in Hc. by apply negb_true_iff.
Qed.

(** Every match [finditer] reports is a match of the pattern somewhere in
    the text. *)
Lemma finditer_go_match (r : regex) (x : option string) (t : list ascii) :
  ∀ skip, x ∈ finditer_go r skip t → ∃ t0 t', match_here r t0 = Some (t', x).
Proof.
  induction t as [|c t IH]; intros skip.
  - destruct skip; simpl; [|by intros ?%elem_of_nil].
    destruct (match_here r []) as [[t' g]|] eqn:Hm; [|by intros ?%elem_of_nil].
    intros ->%list_elem_of_singleton. eauto.
  - destruct skip; simpl; [|apply IH].
    destruct (match_here r (c :: t)) as [[t' g]|] eqn:Hm; [|apply IH].
    intros [->|Hin]%elem_of_cons; [eauto|by eapply IH].
Qed.

Lemma finditer_captures (r : regex) (Q : string → Prop) (content : string)
    (x : option string) :
  captures r Q → x ∈ finditer r content → ∃ s, x = Some s ∧ Q s.
Proof.
  intros Hr (t0 & t' & Hm)%finditer_go_match. unfold match_here in Hm.
  apply Hr in Hm as (t1 & s & HQ & [= _ <-]). eauto.
Qed.

End Matcher.

Lemma import_patterns_capture (pattern : Re.regex) :
  pattern ∈ import_patterns → captures pattern unquoted.
Proof.
  unfold import_patterns. rewrite !elem_of_cons, elem_of_nil.
  intros [->|[->|[->|[->|[]]]]];
    repeat first
      [ apply captures_quoted_spec
      | apply captures_passes; [apply captures_quoted_spec|apply passes_Lit]
      | apply passes_captures;
        [first [apply passes_Lit|apply passes_Plus|apply passes_Star
               |apply passes_LazyStar]|] ].
Qed.

Lemma imports_of_readable (env : Env) (file_path : Path) (content : string) :
  Fs.read_text (fs env) file_path = Some content →
  imports_of env file_path
  = list_to_set (flat_map (λ pattern, omap id (Re.finditer pattern content))
                          import_patterns).
Proof. intros H. unfold imports_of, parse_imports. by rewrite H. Qed.

Lemma exports_of_readable (env : Env) (file_path : Path) (content : string) :
  Fs.read_text (fs env) file_path = Some content →
  exports_of env file_path
  = list_to_set (flat_map (λ pattern, flat_map export_names (Re.finditer pattern content))
                          export_patterns).
Proof. intros H. unfold exports_of, parse_exports. by rewrite H. Qed.

(** X18.  Every specifier the extractor hands to the resolver has at least
    one character and holds no quote character. *)
Theorem specifiers_unquoted (env : Env) (file_path : Path) (import_str : string) :
  import_str ∈ imports_of env file_path →
  import_str ≠ "" ∧ ∀ c, c ∈ list_ascii_of_string import_str → Re.is_quote c = false.
Proof.
  destruct (Fs.read_text (fs env) file_path) as [content|] eqn:Hread.
  2: { rewrite imports_of_unreadable by done. by intros ?%not_elem_of_empty. }
  rewrite (imports_of_readable _ _ _ Hread).
  rewrite elem_of_list_to_set, list_elem_of_In, in_flat_map.
  intros (pattern & Hp%list_elem_of_In & Hin%list_elem_of_In).
  apply list_elem_of_omap in Hin as (x & Hx & Hid). simpl in Hid. subst x.
  apply import_patterns_capture in Hp.
  destruct (finditer_captures _ _ _ _ Hp Hx) as (s & [= <-] & Hs). exact Hs.
Qed.

Lemma specifiers_unquoted_witness :
  "./b" ≠ "" ∧ ∀ c, c ∈ list_ascii_of_string "./b" → Re.is_quote c = false.
Proof.
  apply (specifiers_unquoted Samples.three_files Samples.a_ts "./b"). compute_done.
Defined.

Section Keywords.

Import Re.

Lemma occurs_false (w : string) (c : ascii) (t : list ascii) :
  occurs w (c :: t) = false → lit w (c :: t) = None ∧ occurs w t = false.
Proof. simpl. by destruct (lit w (c :: t)). Qed.

(** A pattern that begins with the literal [w] has no match in a text in
    which [w] does not occur. *)
Lemma finditer_go_no_keyword (w : string) (r : regex) (t : list ascii) :
  occurs w t = false → ∀ skip, finditer_go (Seq (Lit w) r) skip t = [].
Proof.
  induction t as [|c t IH]; intros Hocc skip.
  - destruct skip; [|done]. simpl in *. unfold match_here. simpl.
    by destruct (lit w []).
  - apply occurs_false in Hocc as [Hlit Hocc].
    destruct skip; simpl; [|by apply IH].
    unfold match_here. simpl. rewrite Hlit. by apply IH.
Qed.

Lemma finditer_no_keyword (w content : string) (r : regex) :
  mentions w content = false → finditer (Seq (Lit w) r) content = [].
Proof. intros H. by apply finditer_go_no_keyword. Qed.

End Keywords.

(** X19.  The extractor finds nothing without its keywords: a readable file
    whose text holds none of the words import, require and from has no
    specifier, and one whose text does not hold the word export has no
    export. *)
Theorem keywordless_file_extracts_nothing (env : Env) (file_path : Path)
    (content : string) :
  Fs.read_text (fs env) file_path = Some content →
  (mentions "import" content = false → mentions "require" content = false →
   mentions "from" content = false → imports_of env file_path = ∅)
  ∧ (mentions "export" content = false → exports_of env file_path = ∅).
Proof.
  intros Hread. split.
  - intros Himport Hrequire Hfrom. rewrite (imports_of_readable _ _ _ Hread).
    unfold import_patterns. cbn [flat_map].
    by rewrite !finditer_no_keyword.
  - intros Hexport. rewrite (exports_of_readable _ _ _ Hread).
    unfold export_patterns. cbn [flat_map].
    by rewrite !finditer_no_keyword.
Qed.

Lemma keywordless_file_extracts_nothing_witness :
  imports_of Samples.side_effect Samples.c_ts = ∅
  ∧ exports_of Samples.side_effect Samples.c_ts = ∅.
Proof.
  destruct (keywordless_file_extracts_nothing Samples.side_effect Samples.c_ts
              "console.log('loaded');") as [Hi He]; [reflexivity|].
  split; [apply Hi; reflexivity|apply He; reflexivity].
Defined.

(* ===================================================================== *)
(** ** The warnings of a run *)
(* ===================================================================== *)

Lemma bind_log {A B} (m : M A) (f : A → M B) (ev : Event) :
  ev ∈ (m ≫= f).1 → ev ∈ m.1 ∨ ∃ a, m.2 = Ok a ∧ ev ∈ (f a).1.
Proof.
  destruct m as [l [a|e]]; [|by left].
  rewrite bind_Ok. simpl. rewrite elem_of_app. intros [?|?]; eauto.
Qed.

(** Whatever a loop prints was printed by the pass over one of its
    elements. *)
Lemma for_each_log_only {A S} (body : S → A → M S) (ev : Event) (xs : list A) :
  ∀ st, ev ∈ (for_each xs body st).1 → ∃ x st', x ∈ xs ∧ ev ∈ (body st' x).1.
Proof.
  induction xs as [|x xs IH]; intros st; simpl.
  - by intros ?%elem_of_nil.
  - intros [Hev|(st1 & _ & Hev)]%bind_log.
    + exists x, st. split; [by left|done].
    + destruct (IH _ Hev) as (y & st' & Hy & Hev'). exists y, st'. split; [by right|done].
Qed.

Lemma resolve_one_silent (env : Env) (file_path : Path) (st : Detector)
    (import_str : string) :
  (resolve_one env file_path st import_str).1 = [].
Proof.
  unfold resolve_one, lift.
  destruct (resolve_import_path _ _ _ _) as [[r|]|e]; rewrite ?bind_Ok; simpl; [|done..].
  by case_decide.
Qed.

Lemma process_file_log (env : Env) (st : Detector) (file_path : Path) (ev : Event) :
  ev ∈ (process_file env st file_path).1 →
  ev = PrintWarning file_path ∧ Fs.read_text (fs env) file_path = None.
Proof.
  unfold process_file.
  intros [Hev|(imps & _ & [Hev|(exps & _ & Hev)]%bind_log)]%bind_log.
  - unfold parse_imports in Hev.
    destruct (Fs.read_text (fs env) file_path); simpl in Hev.
    + by apply elem_of_nil in Hev.
    + by apply list_elem_of_singleton in Hev.
  - unfold parse_exports in Hev.
    destruct (Fs.read_text (fs env) file_path); simpl in Hev.
    + by apply elem_of_nil in Hev.
    + by apply list_elem_of_singleton in Hev.
  - apply for_each_log_only in Hev as (x & st' & _ & Hev).
    rewrite resolve_one_silent in Hev. by apply elem_of_nil in Hev.
Qed.

(** X20.  In a completed run a warning is printed for a file exactly when
    that file is scanned and cannot be read; no other file gets one. *)
Theorem warning_iff (env : Env) (root : Path) (log : list Event) (st : Detector)
    (f : Path) :
  seed_ok (seed env) →
  analyse env root = (log, Ok st) →
  PrintWarning f ∈ log ↔ f ∈ files st ∧ Fs.read_text (fs env) f = None.
Proof.
  intros Hseed Hrun.
  destruct (analyse_unfold _ _ _ _ Hseed Hrun) as (l & Hloop & -> & _ & _).
  assert (∀ x, x ∈ path_order (seed env) (files st) ↔ x ∈ files st) as Horder.
  { intros x. by rewrite (path_order_ok _ Hseed), elem_of_elements. }
  rewrite elem_of_app. split.
  - intros [Hin|Hin].
    + rewrite !elem_of_cons, elem_of_nil in Hin. naive_solver.
    + assert (PrintWarning f ∈ (for_each (path_order (seed env) (files st))
                                  (process_file env)
                                  (set_files (init root) (files st))).1) as Hev
        by by rewrite Hloop.
      apply for_each_log_only in Hev as (x & st' & Hx & Hev).
      apply process_file_log in Hev as [[= <-] Hread]. by rewrite <- Horder.
  - intros [Hf Hread]. right.
    eapply (for_each_log (process_file env) _ f); [| |exact Hloop].
    + by apply Horder.
    + intros s. rewrite process_file_unreadable by done. simpl. by left.
Qed.

Lemma warning_iff_witness :
  let run := analyse Samples.unreadable Samples.repo in
  PrintWarning Samples.d_ts ∈ run.1 ↔
  Samples.d_ts ∈ files (Samples.final run)
  ∧ Fs.read_text (fs Samples.unreadable) Samples.d_ts = None.
Proof.
  intros run.
  apply (warning_iff Samples.unreadable Samples.repo run.1 (Samples.final run)).
  - by apply seed_of_ok.
  - vm_compute. reflexivity.
Defined.

(* ===================================================================== *)
(** ** The theorems above on the sample repositories *)
(* ===================================================================== *)

(** The unused files of [monorepo], grouped. *)
Lemma categorize_files_partition_witness :
  let st := Samples.final (analyse Samples.monorepo Samples.repo) in
  let groups := categorize_files Samples.monorepo st (find_unused_files st) in
  groups !! "Packages" = Some [Samples.ui_src ++ ["a.ts"]]
  ∧ (∀ c l, groups !! c = Some l →
       l ≠ [] ∧ NoDup l
       ∧ ∀ f, f ∈ l ↔ f ∈ find_unused_files st ∧ category st f = c)
  ∧ (∀ f, f ∈ find_unused_files st →
       ∃ l, groups !! category st f = Some l ∧ f ∈ l).
Proof.
  intros st groups. split; [vm_compute; reflexivity|].
  apply (categorize_files_partition st Samples.monorepo).
  by apply seed_of_ok.
Defined.

(** The report on [three_files]: two unused files, one orphaned, one
    export-less. *)
Lemma report_lists_match_counts_witness :
  let report :=
    generate_report Samples.three_files
      (Samples.final (analyse Samples.three_files Samples.repo)) in
  unused_files (summary report) = 2
  ∧ listed (report_unused_files report) = unused_files (summary report)
  ∧ listed (report_orphaned_files report) = orphaned_files (summary report)
  ∧ listed (report_files_with_no_exports report)
    = files_with_no_exports (summary report).
Proof.
  intros report. split; [vm_compute; reflexivity|].
  apply (report_lists_match_counts
           (Samples.final (analyse Samples.three_files Samples.repo))
           Samples.three_files).
  by apply seed_of_ok.
Defined.

(** The three files, visited forwards and backwards. *)
Lemma visit_order_irrelevant_witness :
  let st1 := Samples.final (analyse Samples.three_files Samples.repo) in
  let st2 := Samples.final (analyse Samples.three_files_backwards Samples.repo) in
  find_unused_files st1 = find_unused_files st2
  ∧ find_orphaned_files st1 = find_orphaned_files st2
  ∧ find_files_with_no_exports st1 = find_files_with_no_exports st2
  ∧ summary (generate_report Samples.three_files st1)
    = summary (generate_report Samples.three_files_backwards st2).
Proof.
  intros st1 st2.
  apply (visit_order_irrelevant Samples.three_files Samples.three_files_backwards
           Samples.repo (analyse Samples.three_files Samples.repo).1
           (analyse Samples.three_files_backwards Samples.repo).1);
    try reflexivity.
  - by apply seed_of_ok.
  - apply backwards_ok.
Defined.
